(** * BTC loan monitor: price aggregator, alert engine and risk tiers

    A shallow embedding of the price + alert pipeline of the loan monitor:

    - [Aggregator]: [price-oracle/aggregator.ts] (class [PriceAggregator]);
    - [Store]: the loans, the alerts, the last price and the snapshots of
      [store.ts] (class [LoanStore]); its conversations and its file are
      outside;
    - [Alerts]: [alerts] (class [AlertEngine]);
    - [Events]: the history of [events.ts] (class [EventBus]);
    - [Oracle]: the tick of the oracle service (class [PriceOracleService]);
    - [Server]: [apiDeleteAlert] of the dashboard server.

    Numbers.  A JavaScript [number] that holds a price, a threshold or a
    ratio is a rational of [Q]: comparisons and arithmetic are exact, there
    is no rounding, and the inputs are finite.  Where the source divides by
    a value that no guard keeps away from zero, the quotient is a [jsnum],
    which also has the two infinities and NaN.  Equality of rationals is
    [==] ([Qeq]).  Millisecond clock readings ([Date.now()]) are integers of
    [Z] and every reading is an explicit argument.

    Maps.  A JavaScript [Map] iterates in insertion order, and the order is
    visible (in [sources], in the order alerts are visited), so a [Map] is
    an association list whose [set] overwrites in place or appends. *)

From Stdlib Require Import String.
From Stdlib Require Import ZArith QArith Qabs List Bool Lia Lqa.
From Stdlib Require Import Permutation Sorted.
Import ListNotations.

(* ================================================================= *)
(** ** Numbers *)

Module Num.
Local Open Scope Q_scope.

(** [x < y], [x <= y] and [x === y] on finite numbers. *)
Definition Qltb (x y : Q) : bool := negb (Qle_bool y x).
Definition Qleb (x y : Q) : bool := Qle_bool x y.
Definition Qeqb (x y : Q) : bool := Qeq_bool x y.

(** The result of a division whose divisor may be zero. *)
Inductive jsnum : Type :=
| Finite (q : Q)
| PosInf
| NegInf
| NaN.

(** [a / b] on finite operands. *)
Definition js_div (a b : Q) : jsnum :=
  if Qeqb b 0 then
    if Qeqb a 0 then NaN else if Qltb 0 a then PosInf else NegInf
  else Finite (a / b).

(** [x < c] for a finite [c]: false on NaN and on +Infinity. *)
Definition js_lt (x : jsnum) (c : Q) : bool :=
  match x with
  | Finite q => Qltb q c
  | NegInf => true
  | PosInf | NaN => false
  end.

(** [Math.min(a, b)] and [Math.max(a, b)]. *)
Definition min2 (a b : Q) : Q := if Qleb a b then a else b.
Definition max2 (a b : Q) : Q := if Qleb a b then b else a.

(** [Math.min(...xs)] and [Math.max(...xs)] for a non-empty [xs]; the only
    caller spreads an array of at least three elements. *)
Definition Math_min (xs : list Q) : Q :=
  match xs with
  | [] => 0
  | x :: rest => fold_left min2 rest x
  end.

Definition Math_max (xs : list Q) : Q :=
  match xs with
  | [] => 0
  | x :: rest => fold_left max2 rest x
  end.

(** [xs.sort((a, b) => a - b)]: a stable ascending sort. *)
Fixpoint insert_asc (x : Q) (l : list Q) : list Q :=
  match l with
  | [] => [x]
  | y :: rest => if Qleb x y then x :: y :: rest else y :: insert_asc x rest
  end.

Fixpoint sort_asc (l : list Q) : list Q :=
  match l with
  | [] => []
  | x :: rest => insert_asc x (sort_asc rest)
  end.
End Num.

(* ================================================================= *)
(** ** Insertion-ordered maps with string keys *)

Module JsMap.
Definition t (V : Type) : Type := list (string * V).

Definition empty {V : Type} : t V := [].

Fixpoint get {V : Type} (k : string) (m : t V) : option V :=
  match m with
  | [] => None
  | (k', v) :: rest => if String.eqb k k' then Some v else get k rest
  end.

(** [m.set(k, v)]: an existing key keeps its position. *)
Fixpoint set {V : Type} (k : string) (v : V) (m : t V) : t V :=
  match m with
  | [] => [(k, v)]
  | (k', v') :: rest =>
      if String.eqb k k' then (k', v) :: rest else (k', v') :: set k v rest
  end.

Fixpoint delete {V : Type} (k : string) (m : t V) : t V :=
  match m with
  | [] => []
  | (k', v') :: rest =>
      if String.eqb k k' then rest else (k', v') :: delete k rest
  end.

Definition keys {V : Type} (m : t V) : list string := map fst m.
Definition values {V : Type} (m : t V) : list V := map snd m.

(** The representation invariant of a [Map]: no key twice. *)
Definition wf {V : Type} (m : t V) : Prop := NoDup (keys m).
End JsMap.

(* ================================================================= *)
(** ** Insertion-ordered maps with number keys *)

Module NumMap.
Definition t (V : Type) : Type := list (Z * V).

Definition empty {V : Type} : t V := [].

Fixpoint get {V : Type} (k : Z) (m : t V) : option V :=
  match m with
  | [] => None
  | (k', v) :: rest => if Z.eqb k k' then Some v else get k rest
  end.

Fixpoint set {V : Type} (k : Z) (v : V) (m : t V) : t V :=
  match m with
  | [] => [(k, v)]
  | (k', v') :: rest =>
      if Z.eqb k k' then (k', v) :: rest else (k', v') :: set k v rest
  end.

Fixpoint delete {V : Type} (k : Z) (m : t V) : t V :=
  match m with
  | [] => []
  | (k', v') :: rest =>
      if Z.eqb k k' then rest else (k', v') :: delete k rest
  end.
End NumMap.

(* ================================================================= *)
(** ** Shared types ([types.ts]) *)

Module Types.
Inductive PriceConfidence : Type := HIGH | MEDIUM | LOW.

Record PriceUpdate : Type := mkPriceUpdate {
  price : Q;
  timestamp : Z;
  sources : list string;
  twap_5m : Q;
  confidence : PriceConfidence;
  circuit_breaker : bool
}.

Record PriceOracleConfig : Type := mkConfig {
  twap_window_seconds : Q;
  circuit_breaker_pct : Q;
  min_sources : Z;
  price_poll_interval_ms : Z
}.

Inductive RiskTier : Type := GREEN | YELLOW | ORANGE | RED | LIQUIDATION.

Inductive Direction : Type := ABOVE | BELOW.
End Types.

(* ================================================================= *)
(** ** The price aggregator ([price-oracle/aggregator.ts]) *)

Module Aggregator.
Import Num Types.
Local Open Scope Q_scope.

Record PriceSample : Type := mkSample {
  sample_price : Q;
  sample_timestamp : Z;
  sample_sources : list string
}.

(** A value of [sourcePrices]: [{ price, timestamp }]. *)
Record SourceTick : Type := mkTick {
  tick_price : Q;
  tick_timestamp : Z
}.

(** An element of [activeSources]: [{ source, price }]. *)
Record ActiveSource : Type := mkActive {
  source : string;
  active_price : Q
}.

Record PriceAggregator : Type := mkAggregator {
  samples : list PriceSample;
  sourcePrices : JsMap.t SourceTick;
  circuitBreakerActive : bool;
  lastKnownGoodPrice : Q;
  circuitBreakerTriggeredAt : Z;
  config : PriceOracleConfig
}.

Definition maxSamples : nat := 2000.
Definition staleThreshold : Z := 30000.

(** [new PriceAggregator(config)]. *)
Definition create (cfg : PriceOracleConfig) : PriceAggregator :=
  {| samples := [];
     sourcePrices := JsMap.empty;
     circuitBreakerActive := false;
     lastKnownGoodPrice := 0;
     circuitBreakerTriggeredAt := 0%Z;
     config := cfg |}.

Definition with_samples (a : PriceAggregator) (s : list PriceSample) :=
  mkAggregator s (sourcePrices a) (circuitBreakerActive a)
    (lastKnownGoodPrice a) (circuitBreakerTriggeredAt a) (config a).

Definition with_sourcePrices (a : PriceAggregator) (m : JsMap.t SourceTick) :=
  mkAggregator (samples a) m (circuitBreakerActive a)
    (lastKnownGoodPrice a) (circuitBreakerTriggeredAt a) (config a).

Definition with_circuitBreakerActive (a : PriceAggregator) (b : bool) :=
  mkAggregator (samples a) (sourcePrices a) b
    (lastKnownGoodPrice a) (circuitBreakerTriggeredAt a) (config a).

Definition with_lastKnownGoodPrice (a : PriceAggregator) (p : Q) :=
  mkAggregator (samples a) (sourcePrices a) (circuitBreakerActive a)
    p (circuitBreakerTriggeredAt a) (config a).

Definition with_circuitBreakerTriggeredAt (a : PriceAggregator) (t : Z) :=
  mkAggregator (samples a) (sourcePrices a) (circuitBreakerActive a)
    (lastKnownGoodPrice a) t (config a).

Definition updateConfig (a : PriceAggregator) (cfg : PriceOracleConfig)
  : PriceAggregator :=
  mkAggregator (samples a) (sourcePrices a) (circuitBreakerActive a)
    (lastKnownGoodPrice a) (circuitBreakerTriggeredAt a) cfg.

Definition ingestTick (a : PriceAggregator) (src : string) (p : Q) (ts : Z)
  : PriceAggregator :=
  with_sourcePrices a (JsMap.set src (mkTick p ts) (sourcePrices a)).

(** The loop that fills [activeSources]. *)
Fixpoint collectActive (now : Z) (m : JsMap.t SourceTick) : list ActiveSource :=
  match m with
  | [] => []
  | (src, data) :: rest =>
      if (now - tick_timestamp data <? staleThreshold)%Z
      then mkActive src (tick_price data) :: collectActive now rest
      else collectActive now rest
  end.

(** The median of an ascending, non-empty array. *)
Definition medianOfSorted (prices : list Q) : Q :=
  let n := length prices in
  if (n mod 2 =? 1)%nat
  then nth (n / 2) prices 0
  else (nth (n / 2 - 1) prices 0 + nth (n / 2) prices 0) / 2.

(** [samples.push(sample)] and the cut to the last [maxSamples]. *)
Definition addSample (a : PriceAggregator) (s : PriceSample) : PriceAggregator :=
  let pushed := samples a ++ [s] in
  if (maxSamples <? length pushed)%nat
  then with_samples a (skipn (length pushed - maxSamples) pushed)
  else with_samples a pushed.

(** The body of the loop of [computeTwap], with its two accumulators. *)
Fixpoint twapLoop (now : Z) (ws : list PriceSample) (weightedSum totalWeight : Q)
  : Q * Q :=
  match ws with
  | [] => (weightedSum, totalWeight)
  | s :: rest =>
      let start := sample_timestamp s in
      let stop :=
        match rest with
        | next :: _ => sample_timestamp next
        | [] => now
        end in
      let weight := inject_Z (stop - start) in
      twapLoop now rest (weightedSum + sample_price s * weight) (totalWeight + weight)
  end.

Definition windowOf (a : PriceAggregator) (windowMs now : Z) : list PriceSample :=
  let cutoff := (now - windowMs)%Z in
  filter (fun s => (cutoff <=? sample_timestamp s)%Z) (samples a).

(** [computeTwap(windowMs)]; [now] is its own reading of the clock. *)
Definition computeTwap (a : PriceAggregator) (windowMs now : Z) : Q :=
  let windowSamples := windowOf a windowMs now in
  match windowSamples with
  | [] => if Qeqb (lastKnownGoodPrice a) 0 then 0 else lastKnownGoodPrice a
  | [s] => sample_price s
  | _ =>
      let '(weightedSum, totalWeight) := twapLoop now windowSamples 0 0 in
      if Qltb 0 totalWeight
      then weightedSum / totalWeight
      else sample_price (last windowSamples (mkSample 0 0%Z []))
  end.

Definition computeConfidence (srcs : list ActiveSource) : PriceConfidence :=
  if (3 <=? length srcs)%nat then
    let mn := Math_min (map active_price srcs) in
    let mx := Math_max (map active_price srcs) in
    let spread := js_div (mx - mn) mn in
    if js_lt spread (5 # 1000) then HIGH
    else if js_lt spread (1 # 100) then MEDIUM
    else LOW
  else if (length srcs =? 2)%nat then MEDIUM
  else LOW.

Definition twapWindowMs : Z := (5 * 60 * 1000)%Z.
Definition tripHoldMs : Z := 60000%Z.

(** The tail of [computeUpdate]: the median is accepted. *)
Definition acceptMedian (a : PriceAggregator) (active : list ActiveSource)
    (medianPrice : Q) (now nowTwap : Z) : option PriceUpdate * PriceAggregator :=
  let a1 := with_lastKnownGoodPrice a medianPrice in
  let a2 := addSample a1 (mkSample medianPrice now (map source active)) in
  (Some {| price := medianPrice;
           timestamp := now;
           sources := map source active;
           twap_5m := computeTwap a2 twapWindowMs nowTwap;
           confidence := computeConfidence active;
           circuit_breaker := false |}, a2).

(** [computeUpdate()]; [now] is the reading of the clock at its start and
    [nowTwap] the later one inside [computeTwap]. *)
Definition computeUpdate (a : PriceAggregator) (now nowTwap : Z)
  : option PriceUpdate * PriceAggregator :=
  let activeSources := collectActive now (sourcePrices a) in
  match activeSources with
  | [] => (None, a)
  | _ :: _ =>
      let prices := sort_asc (map active_price activeSources) in
      let medianPrice := medianOfSorted prices in
      if Qltb 0 (lastKnownGoodPrice a) then
        let pctChange :=
          Qabs (medianPrice - lastKnownGoodPrice a) / lastKnownGoodPrice a in
        if Qltb (circuit_breaker_pct (config a) / 100) pctChange then
          let a1 :=
            if negb (circuitBreakerActive a)
            then with_circuitBreakerTriggeredAt
                   (with_circuitBreakerActive a true) now
            else a in
          if (now - circuitBreakerTriggeredAt a1 <? tripHoldMs)%Z then
            let a2 :=
              addSample a1
                (mkSample (lastKnownGoodPrice a1) now (map source activeSources)) in
            (Some {| price := medianPrice;
                     timestamp := now;
                     sources := map source activeSources;
                     twap_5m := computeTwap a2 twapWindowMs nowTwap;
                     confidence := computeConfidence activeSources;
                     circuit_breaker := true |}, a2)
          else
            acceptMedian (with_circuitBreakerActive a1 false)
              activeSources medianPrice now nowTwap
        else
          acceptMedian (with_circuitBreakerActive a false)
            activeSources medianPrice now nowTwap
      else
        acceptMedian a activeSources medianPrice now nowTwap
  end.


(** The configuration of the entry point. *)
Definition oracleConfig : PriceOracleConfig :=
  {| twap_window_seconds := 300;
     circuit_breaker_pct := 10;
     min_sources := 1%Z;
     price_poll_interval_ms := 5000%Z |}.

(** The loop of [getSourceCount()], with its counter. *)
Fixpoint countLoop (now : Z) (m : JsMap.t SourceTick) (count : nat) : nat :=
  match m with
  | [] => count
  | (_, data) :: rest =>
      countLoop now rest
        (if (now - tick_timestamp data <? 30000)%Z then S count else count)
  end.

Definition getSourceCount (a : PriceAggregator) (now : Z) : nat :=
  countLoop now (sourcePrices a) 0.



End Aggregator.

(* ================================================================= *)
(** ** The loan store ([store.ts]) *)

Module Store.
Import Num Types.
Local Open Scope Q_scope.

(** The fields of a loan the pipeline reads.  [interest_rate], [end_date],
    [lender_name], [created_at] and [updated_at] are carried by the source
    record and read by neither the alert engine nor [classifyTier]. *)
Record SelfServiceLoan : Type := mkLoan {
  token : string;
  loan_amount_usd : Q;
  btc_collateral : Q;
  margin_call_ltv : Q;
  liquidation_ltv : Q;
  chat_id : Z
}.

Module PriceAlert.
Record t : Type := mk {
  alert_id : string;
  token : string;
  threshold : Q;
  direction : Direction;
  triggered : bool;
  created_at : Z;
  triggered_at : option Z
}.

(** [alert.triggered = true; alert.triggered_at = Date.now()]. *)
Definition trigger (a : t) (now : Z) : t :=
  mk (alert_id a) (token a) (threshold a) (direction a) true (created_at a) (Some now).
End PriceAlert.

Module LtvAlert.
Record t : Type := mk {
  alert_id : string;
  token : string;
  ltv_threshold : Q;
  direction : Direction;
  triggered : bool;
  created_at : Z;
  triggered_at : option Z
}.

Definition trigger (a : t) (now : Z) : t :=
  mk (alert_id a) (token a) (ltv_threshold a) (direction a) true (created_at a) (Some now).
End LtvAlert.

(** The maps of the store the pipeline touches ([chatToToken] and
    [conversations] belong to the chat front-end). *)
Record LoanStore : Type := mkStore {
  loans : JsMap.t SelfServiceLoan;
  priceAlerts : JsMap.t PriceAlert.t;
  ltvAlerts : JsMap.t LtvAlert.t;
  lastPrice : option PriceUpdate
}.

Definition create : LoanStore :=
  {| loans := JsMap.empty; priceAlerts := JsMap.empty;
     ltvAlerts := JsMap.empty; lastPrice := None |}.

Definition with_loans (s : LoanStore) (m : JsMap.t SelfServiceLoan) :=
  mkStore m (priceAlerts s) (ltvAlerts s) (lastPrice s).
Definition with_priceAlerts (s : LoanStore) (m : JsMap.t PriceAlert.t) :=
  mkStore (loans s) m (ltvAlerts s) (lastPrice s).
Definition with_ltvAlerts (s : LoanStore) (m : JsMap.t LtvAlert.t) :=
  mkStore (loans s) (priceAlerts s) m (lastPrice s).

(** [createLoan], with the random token as an argument and the four
    numeric fields already defaulted by the caller. *)
Definition createLoan (s : LoanStore) (loan : SelfServiceLoan) : LoanStore :=
  with_loans s (JsMap.set (token loan) loan (loans s)).

Definition getLoan (s : LoanStore) (tok : string) : option SelfServiceLoan :=
  JsMap.get tok (loans s).

Definition getAllLoans (s : LoanStore) : list SelfServiceLoan :=
  JsMap.values (loans s).

(** [createPriceAlert] and [createLtvAlert], with the random id and the
    clock reading as arguments. *)
Definition createPriceAlert (s : LoanStore) (id : string) (now : Z)
    (tok : string) (thr : Q) (dir : Direction) : LoanStore :=
  with_priceAlerts s
    (JsMap.set id (PriceAlert.mk id tok thr dir false now None) (priceAlerts s)).

Definition createLtvAlert (s : LoanStore) (id : string) (now : Z)
    (tok : string) (thr : Q) (dir : Direction) : LoanStore :=
  with_ltvAlerts s
    (JsMap.set id (LtvAlert.mk id tok thr dir false now None) (ltvAlerts s)).

Definition getPriceAlert (s : LoanStore) (id : string) : option PriceAlert.t :=
  JsMap.get id (priceAlerts s).

Definition getLtvAlert (s : LoanStore) (id : string) : option LtvAlert.t :=
  JsMap.get id (ltvAlerts s).

Definition getAllPriceAlerts (s : LoanStore) : list PriceAlert.t :=
  JsMap.values (priceAlerts s).

Definition getAllLtvAlerts (s : LoanStore) : list LtvAlert.t :=
  JsMap.values (ltvAlerts s).

Definition setLastPrice (s : LoanStore) (u : PriceUpdate) : LoanStore :=
  mkStore (loans s) (priceAlerts s) (ltvAlerts s) (Some u).

Definition classifyTier (ltv marginCallLtv liquidationLtv : Q) : RiskTier :=
  if Qleb liquidationLtv ltv then LIQUIDATION
  else if Qleb marginCallLtv ltv then RED
  else
    let yellowThreshold := marginCallLtv * (8 # 10) in
    if Qleb yellowThreshold ltv then ORANGE
    else
      let greenThreshold := marginCallLtv * (6 # 10) in
      if Qleb greenThreshold ltv then YELLOW
      else GREEN.

(** [getPriceAlerts(token)] and [getLtvAlerts(token)]. *)
Definition getPriceAlerts (s : LoanStore) (tok : string) : list PriceAlert.t :=
  filter (fun a => String.eqb (PriceAlert.token a) tok) (JsMap.values (priceAlerts s)).

Definition getLtvAlerts (s : LoanStore) (tok : string) : list LtvAlert.t :=
  filter (fun a => String.eqb (LtvAlert.token a) tok) (JsMap.values (ltvAlerts s)).

(** [deletePriceAlert(alertId)] and [deleteLtvAlert(alertId)]: the result
    of [Map.delete] and the store. *)
Definition deletePriceAlert (s : LoanStore) (id : string) : bool * LoanStore :=
  match JsMap.get id (priceAlerts s) with
  | Some _ => (true, with_priceAlerts s (JsMap.delete id (priceAlerts s)))
  | None => (false, s)
  end.

Definition deleteLtvAlert (s : LoanStore) (id : string) : bool * LoanStore :=
  match JsMap.get id (ltvAlerts s) with
  | Some _ => (true, with_ltvAlerts s (JsMap.delete id (ltvAlerts s)))
  | None => (false, s)
  end.

Definition getLastPrice (s : LoanStore) : option PriceUpdate := lastPrice s.

(** The two loops of [deleteLoan]: every entry whose alert names the loan
    is deleted from the map under its key, while the map is walked. *)
Fixpoint dropPriceAlertsOf (tok : string) (entries m : JsMap.t PriceAlert.t)
  : JsMap.t PriceAlert.t :=
  match entries with
  | [] => m
  | (id, alert) :: rest =>
      dropPriceAlertsOf tok rest
        (if String.eqb (PriceAlert.token alert) tok then JsMap.delete id m else m)
  end.

Fixpoint dropLtvAlertsOf (tok : string) (entries m : JsMap.t LtvAlert.t)
  : JsMap.t LtvAlert.t :=
  match entries with
  | [] => m
  | (id, alert) :: rest =>
      dropLtvAlertsOf tok rest
        (if String.eqb (LtvAlert.token alert) tok then JsMap.delete id m else m)
  end.

(** [deleteLoan(token)], with the map [chatToToken] of the class beside the
    store. *)
Definition deleteLoan (s : LoanStore) (chatToToken : NumMap.t string) (tok : string)
  : bool * LoanStore * NumMap.t string :=
  match JsMap.get tok (loans s) with
  | None => (false, s, chatToToken)
  | Some loan =>
      (true,
       mkStore (JsMap.delete tok (loans s))
         (dropPriceAlertsOf tok (priceAlerts s) (priceAlerts s))
         (dropLtvAlertsOf tok (ltvAlerts s) (ltvAlerts s))
         (lastPrice s),
       NumMap.delete (chat_id loan) chatToToken)
  end.

(** [getLoanByChatId(chatId)]. *)
Definition getLoanByChatId (s : LoanStore) (chatToToken : NumMap.t string)
    (chatId : Z) : option SelfServiceLoan :=
  match NumMap.get chatId chatToToken with
  | None => None
  | Some tok => if String.eqb tok "" then None else JsMap.get tok (loans s)
  end.

(** One entry of the stress test: [{ price, ltv, tier }]. *)
Record StressPoint : Type := mkStressPoint {
  stress_price : Q;
  stress_ltv : jsnum;
  stress_tier : RiskTier
}.

Record StressTest : Type := mkStressTest {
  drop_5pct : StressPoint;
  drop_10pct : StressPoint;
  drop_20pct : StressPoint;
  drop_30pct : StressPoint
}.

Record LoanSnapshot : Type := mkSnapshot {
  snapshot_token : string;
  btc_price : Q;
  collateral_usd : Q;
  current_ltv : jsnum;
  margin_call_price : jsnum;
  liquidation_price : jsnum;
  stress_test : StressTest;
  risk_tier : RiskTier;
  days_remaining : option Z
}.

(** [classifyTier] on a quotient: +Infinity passes the first comparison,
    -Infinity and NaN pass none. *)
Definition classifyTierOf (ltv : jsnum) (marginCallLtv liquidationLtv : Q) : RiskTier :=
  match ltv with
  | Finite q => classifyTier q marginCallLtv liquidationLtv
  | PosInf => LIQUIDATION
  | NegInf | NaN => GREEN
  end.

Definition stressAt (loan : SelfServiceLoan) (p : Q) : StressPoint :=
  let collateral := btc_collateral loan * p in
  let ltv := js_div (loan_amount_usd loan) collateral in
  mkStressPoint p ltv
    (classifyTierOf ltv (margin_call_ltv loan) (liquidation_ltv loan)).

(** [Math.ceil(x / d)] for integers [x] and [d > 0]. *)
Definition ceilDiv (x d : Z) : Z := (- ((- x) / d))%Z.

Definition msPerDay : Z := (24 * 60 * 60 * 1000)%Z.

(** [computeSnapshot(token, btcPrice?)].  [endTs] is the end date of the
    loan as [new Date(loan.end_date).getTime()] reads it, [None] for a loan
    without one; an end date that does not parse (a reading of NaN) is
    outside.  [now] is the reading of the clock. *)
Definition computeSnapshot (s : LoanStore) (tok : string) (btcPrice : option Q)
    (endTs : option Z) (now : Z) : option LoanSnapshot :=
  match JsMap.get tok (loans s) with
  | None => None
  | Some loan =>
      let p :=
        match btcPrice with
        | Some b => b
        | None =>
            match lastPrice s with
            | Some u => price u
            | None => 0
            end
        end in
      if Qleb p 0 then None
      else
        let collateralUsd := btc_collateral loan * p in
        let currentLtv := js_div (loan_amount_usd loan) collateralUsd in
        let marginCallPrice :=
          js_div (loan_amount_usd loan) (btc_collateral loan * margin_call_ltv loan) in
        let liquidationPrice :=
          js_div (loan_amount_usd loan) (btc_collateral loan * liquidation_ltv loan) in
        let tier :=
          classifyTierOf currentLtv (margin_call_ltv loan) (liquidation_ltv loan) in
        let stressTest :=
          mkStressTest (stressAt loan (p * (95 # 100)))
                       (stressAt loan (p * (90 # 100)))
                       (stressAt loan (p * (80 # 100)))
                       (stressAt loan (p * (70 # 100))) in
        let daysRemaining :=
          match endTs with
          | None => None
          | Some t => Some (Z.max 0 (ceilDiv (t - now) msPerDay))
          end in
        Some (mkSnapshot tok p collateralUsd currentLtv marginCallPrice
                liquidationPrice stressTest tier daysRemaining)
  end.

End Store.

(* ================================================================= *)
(** ** The alert engine ([alerts], class [AlertEngine]) *)

Module Alerts.
Import Num Types Store.
Local Open Scope Q_scope.

Inductive AlertKind : Type := PriceKind | LtvKind.

(** A call [sendNotification(chat_id, text)].  The text names the direction,
    the threshold and the current observation; they are kept as fields.
    [note_kind] and [note_alert_id] are not in the text: they record which
    alert made the call. *)
Record Notification : Type := mkNotification {
  note_chat_id : Z;
  note_kind : AlertKind;
  note_alert_id : string;
  note_direction : Direction;
  note_threshold : Q;
  note_value : Q;
  note_price : Q
}.

(** A system event of type [ALERT_TRIGGERED] with its [data]. *)
Record AlertTriggered : Type := mkAlertTriggered {
  event_timestamp : Z;
  event_kind : AlertKind;
  event_alert_id : string;
  event_value : Q;
  event_threshold : Q
}.

(** What one update sends out, in order.  The injected sender is the one of
    the test suite: it records the call and returns. *)
Inductive Effect : Type :=
| Notify (n : Notification)
| Emit (e : AlertTriggered).

Record AlertEngine : Type := mkEngine {
  store : LoanStore;
  previousPrice : Q;
  previousLtvs : JsMap.t Q
}.

(** [new AlertEngine(store, sendNotification)]. *)
Definition create (s : LoanStore) : AlertEngine :=
  {| store := s; previousPrice := 0; previousLtvs := JsMap.empty |}.

(** The value of [crossed] after the two [if]s of either branch. *)
Definition priceCrossed (previousPrice currentPrice : Q) (alert : PriceAlert.t)
  : bool :=
  let thr := PriceAlert.threshold alert in
  match PriceAlert.direction alert with
  | BELOW =>
      (Qltb 0 previousPrice && Qleb thr previousPrice && Qltb currentPrice thr)
      || (Qeqb previousPrice 0 && Qltb currentPrice thr)
  | ABOVE =>
      (Qltb 0 previousPrice && Qleb previousPrice thr && Qltb thr currentPrice)
      || (Qeqb previousPrice 0 && Qltb thr currentPrice)
  end.

(** One turn of the loop of [checkPriceAlerts]. *)
Definition checkPriceAlert (s : LoanStore) (previousPrice currentPrice : Q)
    (now : Z) (alert : PriceAlert.t) : PriceAlert.t * list Effect :=
  if PriceAlert.triggered alert then (alert, [])
  else
    match getLoan s (PriceAlert.token alert) with
    | None => (alert, [])
    | Some loan =>
        if priceCrossed previousPrice currentPrice alert then
          (PriceAlert.trigger alert now,
           [ Notify (mkNotification (chat_id loan) PriceKind
                       (PriceAlert.alert_id alert) (PriceAlert.direction alert)
                       (PriceAlert.threshold alert) currentPrice currentPrice);
             Emit (mkAlertTriggered now PriceKind (PriceAlert.alert_id alert)
                     currentPrice (PriceAlert.threshold alert)) ])
        else (alert, [])
    end.

Fixpoint checkPriceAlertsLoop (s : LoanStore) (previousPrice currentPrice : Q)
    (now : Z) (alerts : JsMap.t PriceAlert.t)
  : JsMap.t PriceAlert.t * list Effect :=
  match alerts with
  | [] => ([], [])
  | (id, alert) :: rest =>
      let '(alert', fx) := checkPriceAlert s previousPrice currentPrice now alert in
      let '(rest', fx') := checkPriceAlertsLoop s previousPrice currentPrice now rest in
      ((id, alert') :: rest', fx ++ fx')
  end.

(** [checkPriceAlerts(currentPrice)]: the alerts are objects shared with the
    store, so the loop leaves the store's map with the flags it has set. *)
Definition checkPriceAlerts (e : AlertEngine) (currentPrice : Q) (now : Z)
  : AlertEngine * list Effect :=
  let '(alerts', fx) :=
    checkPriceAlertsLoop (store e) (previousPrice e) currentPrice now
      (priceAlerts (store e)) in
  (mkEngine (with_priceAlerts (store e) alerts') (previousPrice e) (previousLtvs e),
   fx).

Definition ltvCrossed (previousLtv currentLtv : Q) (alert : LtvAlert.t) : bool :=
  let thr := LtvAlert.ltv_threshold alert in
  match LtvAlert.direction alert with
  | ABOVE =>
      (Qltb 0 previousLtv && Qleb previousLtv thr && Qltb thr currentLtv)
      || (Qeqb previousLtv 0 && Qltb thr currentLtv)
  | BELOW =>
      (Qltb 0 previousLtv && Qleb thr previousLtv && Qltb currentLtv thr)
      || (Qeqb previousLtv 0 && Qltb currentLtv thr)
  end.

(** One turn of the first loop of [checkLtvAlerts]. *)
Definition checkLtvAlert (s : LoanStore) (prevLtvs : JsMap.t Q) (currentPrice : Q)
    (now : Z) (alert : LtvAlert.t) : LtvAlert.t * list Effect :=
  if LtvAlert.triggered alert then (alert, [])
  else
    match getLoan s (LtvAlert.token alert) with
    | None => (alert, [])
    | Some loan =>
        let collateralUsd := btc_collateral loan * currentPrice in
        if Qleb collateralUsd 0 then (alert, [])
        else
          let currentLtv := loan_amount_usd loan / collateralUsd in
          let previousLtv :=
            match JsMap.get (LtvAlert.token alert) prevLtvs with
            | Some v => v
            | None => 0
            end in
          if ltvCrossed previousLtv currentLtv alert then
            (LtvAlert.trigger alert now,
             [ Notify (mkNotification (chat_id loan) LtvKind
                         (LtvAlert.alert_id alert) (LtvAlert.direction alert)
                         (LtvAlert.ltv_threshold alert) currentLtv currentPrice);
               Emit (mkAlertTriggered now LtvKind (LtvAlert.alert_id alert)
                       currentLtv (LtvAlert.ltv_threshold alert)) ])
          else (alert, [])
    end.

Fixpoint checkLtvAlertsLoop (s : LoanStore) (prevLtvs : JsMap.t Q)
    (currentPrice : Q) (now : Z) (alerts : JsMap.t LtvAlert.t)
  : JsMap.t LtvAlert.t * list Effect :=
  match alerts with
  | [] => ([], [])
  | (id, alert) :: rest =>
      let '(alert', fx) := checkLtvAlert s prevLtvs currentPrice now alert in
      let '(rest', fx') := checkLtvAlertsLoop s prevLtvs currentPrice now rest in
      ((id, alert') :: rest', fx ++ fx')
  end.

(** The second loop of [checkLtvAlerts]: the previous LTV of every loan. *)
Fixpoint refreshPreviousLtvs (currentPrice : Q) (ls : list SelfServiceLoan)
    (prevLtvs : JsMap.t Q) : JsMap.t Q :=
  match ls with
  | [] => prevLtvs
  | loan :: rest =>
      let collateralUsd := btc_collateral loan * currentPrice in
      refreshPreviousLtvs currentPrice rest
        (if Qltb 0 collateralUsd
         then JsMap.set (Store.token loan) (loan_amount_usd loan / collateralUsd) prevLtvs
         else prevLtvs)
  end.

Definition checkLtvAlerts (e : AlertEngine) (currentPrice : Q) (now : Z)
  : AlertEngine * list Effect :=
  let '(alerts', fx) :=
    checkLtvAlertsLoop (store e) (previousLtvs e) currentPrice now
      (ltvAlerts (store e)) in
  let s' := with_ltvAlerts (store e) alerts' in
  (mkEngine s' (previousPrice e)
     (refreshPreviousLtvs currentPrice (getAllLoans s') (previousLtvs e)),
   fx).

(** [onPriceUpdate(update)].  [now] stands for the readings of the clock
    taken while the update is processed; they only stamp [triggered_at] and
    the events. *)
Definition onPriceUpdate (e : AlertEngine) (update : PriceUpdate) (now : Z)
  : AlertEngine * list Effect :=
  let currentPrice := price update in
  let e0 := mkEngine (setLastPrice (store e) update) (previousPrice e) (previousLtvs e) in
  let '(e1, fx1) := checkPriceAlerts e0 currentPrice now in
  let '(e2, fx2) := checkLtvAlerts e1 currentPrice now in
  (mkEngine (store e2) currentPrice (previousLtvs e2), fx1 ++ fx2).

(** The update [processPrice(price)] builds, and [processPrice] itself. *)
Definition testUpdate (p : Q) (now : Z) : PriceUpdate :=
  {| price := p; timestamp := now; sources := ["test"%string];
     twap_5m := p; confidence := HIGH; circuit_breaker := false |}.

Definition processPrice (e : AlertEngine) (p : Q) (now : Z)
  : AlertEngine * list Effect :=
  onPriceUpdate e (testUpdate p now) now.

(** A run of updates, each with its clock reading; the effects of each
    update are kept apart. *)
Fixpoint deliver (e : AlertEngine) (updates : list (PriceUpdate * Z))
  : AlertEngine * list (list Effect) :=
  match updates with
  | [] => (e, [])
  | (u, now) :: rest =>
      let '(e1, fx) := onPriceUpdate e u now in
      let '(e2, fxs) := deliver e1 rest in
      (e2, fx :: fxs)
  end.
End Alerts.

(* ================================================================= *)
(** ** The event bus ([events.ts]) *)

Module Events.
Import Types Alerts.

Inductive EventType : Type :=
| PRICE_UPDATE
| CIRCUIT_BREAKER
| SOURCE_DEGRADED
| ALERT_TRIGGERED.

(** The [data] the emitters of the repository attach to an event. *)
Inductive EventData : Type :=
| PriceData (u : PriceUpdate)
| BreakerData (p : Q) (c : PriceConfidence) (srcs : list string)
| DegradedData (active_sources : nat) (min_required : Z)
| AlertData (e : AlertTriggered).

Record SystemEvent : Type := mkSystemEvent {
  ev_type : EventType;
  ev_timestamp : Z;
  ev_data : EventData
}.

Definition type_eqb (t1 t2 : EventType) : bool :=
  match t1, t2 with
  | PRICE_UPDATE, PRICE_UPDATE
  | CIRCUIT_BREAKER, CIRCUIT_BREAKER
  | SOURCE_DEGRADED, SOURCE_DEGRADED
  | ALERT_TRIGGERED, ALERT_TRIGGERED => true
  | _, _ => false
  end.

(** The state of the bus: its [history]. *)
Record EventBus : Type := mkBus {
  history : list SystemEvent
}.

Definition maxHistory : nat := 1000.

Definition create : EventBus := mkBus [].

(** [emitSystemEvent(event)]: the push and the cut to the last
    [maxHistory]; the listeners of [system:event] are outside. *)
Definition emitSystemEvent (b : EventBus) (e : SystemEvent) : EventBus :=
  let pushed := history b ++ [e] in
  if (maxHistory <? length pushed)%nat
  then mkBus (skipn (length pushed - maxHistory) pushed)
  else mkBus pushed.

(** [xs.slice(start)] for an integer [start]: a negative [start] counts
    from the end. *)
Definition slice {A : Type} (start : Z) (xs : list A) : list A :=
  let len := Z.of_nat (length xs) in
  let k := if (start <? 0)%Z then Z.max (len + start) 0 else Z.min start len in
  skipn (Z.to_nat k) xs.

(** [getHistory(type?, limit)]; the default [limit] is 50. *)
Definition getHistory (b : EventBus) (type : option EventType) (limit : Z)
  : list SystemEvent :=
  let filtered :=
    match type with
    | Some t => filter (fun e => type_eqb (ev_type e) t) (history b)
    | None => history b
    end in
  slice (- limit) filtered.

Definition defaultLimit : Z := 50.

(** The events an update of the alert engine emits, in order. *)
Fixpoint emitted (fx : list Effect) : list SystemEvent :=
  match fx with
  | [] => []
  | Emit e :: rest =>
      mkSystemEvent ALERT_TRIGGERED (event_timestamp e) (AlertData e) :: emitted rest
  | Notify _ :: rest => emitted rest
  end.
End Events.

(* ================================================================= *)
(** ** The oracle service ([price-oracle], class [PriceOracleService]) *)

Module Oracle.
Import Types Aggregator Events.

(** The aggregator, the configuration and the last update; the sources and
    the poll timer are outside. *)
Record PriceOracleService : Type := mkService {
  aggregator : PriceAggregator;
  config : PriceOracleConfig;
  lastUpdate : option PriceUpdate
}.

Definition create (cfg : PriceOracleConfig) : PriceOracleService :=
  {| aggregator := Aggregator.create cfg; config := cfg; lastUpdate := None |}.

(** The listener of [price:source_tick]. *)
Definition onSourceTick (o : PriceOracleService) (src : string) (p : Q) (ts : Z)
  : PriceOracleService :=
  mkService (ingestTick (aggregator o) src p ts) (config o) (lastUpdate o).

(** [tick()]: the service after it, the update published on [price:update]
    and the system events emitted, in order. *)
Definition tick (o : PriceOracleService) (now nowTwap : Z)
  : PriceOracleService * option PriceUpdate * list SystemEvent :=
  match computeUpdate (aggregator o) now nowTwap with
  | (None, a') => (mkService a' (config o) (lastUpdate o), None, [])
  | (Some update, a') =>
      (mkService a' (config o) (Some update),
       Some update,
       [mkSystemEvent PRICE_UPDATE (timestamp update) (PriceData update)]
       ++ (if circuit_breaker update
           then [mkSystemEvent CIRCUIT_BREAKER (timestamp update)
                   (BreakerData (price update) (confidence update) (sources update))]
           else [])
       ++ (if (Z.of_nat (length (sources update)) <? min_sources (config o))%Z
           then [mkSystemEvent SOURCE_DEGRADED (timestamp update)
                   (DegradedData (length (sources update)) (min_sources (config o)))]
           else []))
  end.

Definition getLastUpdate (o : PriceOracleService) : option PriceUpdate :=
  lastUpdate o.

End Oracle.

(* ================================================================= *)
(** ** The dashboard server ([server], class [DashboardServer]) *)

Module Server.
Import Types Store.

(** [apiDeleteAlert(res, token, alertId)]: the status of the response and
    the store. *)
Definition apiDeleteAlert (s : LoanStore) (tok alertId : string) : Z * LoanStore :=
  match getLoan s tok with
  | None => (404%Z, s)
  | Some _ =>
      let '(deletedPrice, s1) := deletePriceAlert s alertId in
      let '(deletedLtv, s2) := deleteLtvAlert s1 alertId in
      if deletedPrice || deletedLtv then (200%Z, s2) else (404%Z, s2)
  end.

End Server.

(* ================================================================= *)
(** ** Vocabulary of the specification *)

Module Spec.
Import Num Types Aggregator Store Alerts.
Local Open Scope Q_scope.

(** *** Aggregator *)

(** A tick is fresh at [now] when it is younger than 30 000 ms. *)
Definition fresh (now : Z) (t : SourceTick) : Prop :=
  (now - tick_timestamp t < 30000)%Z.

Definition freshb (now : Z) (t : SourceTick) : bool :=
  (now - tick_timestamp t <? 30000)%Z.

(** The set [A] of step 1: the sources whose stored tick is fresh, with
    their prices, in the order of the map. *)
Definition freshSet (a : PriceAggregator) (now : Z) : list (string * Q) :=
  map (fun kv => (fst kv, tick_price (snd kv)))
      (filter (fun kv => freshb now (snd kv)) (sourcePrices a)).

Definition freshPrices (a : PriceAggregator) (now : Z) : list Q :=
  map snd (freshSet a now).

Definition freshNames (a : PriceAggregator) (now : Z) : list string :=
  map fst (freshSet a now).

(** [P] is the fresh prices sorted ascending. *)
Definition sortedPrices (a : PriceAggregator) (now : Z) (P : list Q) : Prop :=
  Permutation P (freshPrices a now) /\ Sorted Qle P.

(** The median of step 2, on an ascending list. *)
Definition medianSpec (P : list Q) : Q :=
  let n := length P in
  if Nat.odd n then nth (n / 2) P 0
  else (nth (n / 2 - 1) P 0 + nth (n / 2) P 0) / 2.



(** The relative change of step 3 exceeds the configured percentage. *)
Definition deviates (a : PriceAggregator) (median : Q) : Prop :=
  circuit_breaker_pct (config a) / 100
  < Qabs (median - lastKnownGoodPrice a) / lastKnownGoodPrice a.

(** The states an aggregator goes through. *)
Inductive reachable : PriceAggregator -> Prop :=
| reach_create (cfg : PriceOracleConfig) :
    reachable (Aggregator.create cfg)
| reach_updateConfig (a : PriceAggregator) (cfg : PriceOracleConfig) :
    reachable a -> reachable (updateConfig a cfg)
| reach_ingestTick (a : PriceAggregator) (src : string) (p : Q) (ts : Z) :
    reachable a -> reachable (ingestTick a src p ts)
| reach_computeUpdate (a : PriceAggregator) (now nowTwap : Z) :
    reachable a -> reachable (snd (computeUpdate a now nowTwap)).

(** The samples of the trailing window of [windowMs] at [now]. *)
Definition inWindow (a : PriceAggregator) (windowMs now : Z) : list PriceSample :=
  filter (fun s => (now - windowMs <=? sample_timestamp s)%Z) (samples a).

(** The weight of each sample of a window: the interval until the next
    sample, or until [now] for the last one. *)
Fixpoint weights (now : Z) (ws : list PriceSample) : list Q :=
  match ws with
  | [] => []
  | s :: rest =>
      let next :=
        match rest with
        | s' :: _ => sample_timestamp s'
        | [] => now
        end in
      inject_Z (next - sample_timestamp s) :: weights now rest
  end.

Fixpoint sumQ (l : list Q) : Q :=
  match l with
  | [] => 0
  | x :: rest => x + sumQ rest
  end.

Fixpoint dotQ (xs ys : list Q) : Q :=
  match xs, ys with
  | x :: xs', y :: ys' => x * y + dotQ xs' ys'
  | _, _ => 0
  end.

Definition totalWeightSpec (now : Z) (ws : list PriceSample) : Q :=
  sumQ (weights now ws).

Definition weightedSumSpec (now : Z) (ws : list PriceSample) : Q :=
  dotQ (map sample_price ws) (weights now ws).

(** *** Alert engine *)

Definition belowRule (prev curr thr : Q) : Prop :=
  (0 < prev /\ thr <= prev /\ curr < thr) \/ (prev == 0 /\ curr < thr).

Definition aboveRule (prev curr thr : Q) : Prop :=
  (0 < prev /\ prev <= thr /\ thr < curr) \/ (prev == 0 /\ thr < curr).

Definition crossingRule (d : Direction) (prev curr thr : Q) : Prop :=
  match d with
  | BELOW => belowRule prev curr thr
  | ABOVE => aboveRule prev curr thr
  end.

Definition kind_eqb (k1 k2 : AlertKind) : bool :=
  match k1, k2 with
  | PriceKind, PriceKind | LtvKind, LtvKind => true
  | _, _ => false
  end.

(** The notifications and the [ALERT_TRIGGERED] events of one alert among
    the effects of an update. *)
Definition isNotificationOf (k : AlertKind) (id : string) (fx : Effect) : bool :=
  match fx with
  | Notify n => kind_eqb (note_kind n) k && String.eqb (note_alert_id n) id
  | Emit _ => false
  end.

Definition isEventOf (k : AlertKind) (id : string) (fx : Effect) : bool :=
  match fx with
  | Emit e => kind_eqb (event_kind e) k && String.eqb (event_alert_id e) id
  | Notify _ => false
  end.

Definition notifications (k : AlertKind) (id : string) (fx : list Effect) : nat :=
  length (filter (isNotificationOf k id) fx).

Definition events (k : AlertKind) (id : string) (fx : list Effect) : nat :=
  length (filter (isEventOf k id) fx).

(** The alert fires on an update: the update sends one notification for it. *)
Definition fires (k : AlertKind) (id : string) (fx : list Effect) : Prop :=
  notifications k id fx = 1%nat.

(** The store as [createLoan], [createPriceAlert], [createLtvAlert] and the
    engine keep it: every alert is stored under its own id, no id twice. *)
Definition wfStore (s : LoanStore) : Prop :=
  JsMap.wf (priceAlerts s) /\ JsMap.wf (ltvAlerts s) /\
  (forall k a, In (k, a) (priceAlerts s) -> PriceAlert.alert_id a = k) /\
  (forall k a, In (k, a) (ltvAlerts s) -> LtvAlert.alert_id a = k).

(** The flag of an alert of either kind ([None]: no such alert). *)
Definition triggeredFlag (s : LoanStore) (k : AlertKind) (id : string) : option bool :=
  match k with
  | PriceKind => option_map PriceAlert.triggered (getPriceAlert s id)
  | LtvKind => option_map LtvAlert.triggered (getLtvAlert s id)
  end.

(** Whether the loop body of [checkPriceAlerts] fires an alert. *)
Definition priceFires (s : LoanStore) (prev curr : Q) (alert : PriceAlert.t) : bool :=
  negb (PriceAlert.triggered alert)
  && match getLoan s (PriceAlert.token alert) with
     | Some _ => true
     | None => false
     end
  && priceCrossed prev curr alert.

(** *** Scenarios *)

(** S5: the three ticks, ingested into an aggregator that holds none. *)
Definition ingestS5 (a : PriceAggregator) (t1 t2 t3 : Z) : PriceAggregator :=
  ingestTick
    (ingestTick (ingestTick a "kraken" 60000 t1) "coinbase" 60500 t2)
    "bitstamp" 60200 t3.

Definition stateS5 : PriceAggregator :=
  ingestS5 (Aggregator.create oracleConfig) 1000 1000 1000.

(** S6: one accepted update at 60000, then a tick at 72000 trips the
    breaker (10 percent allowed) at the clock reading 6000. *)
Definition stateS6_accepted : PriceAggregator :=
  snd (computeUpdate
         (ingestTick (Aggregator.create oracleConfig) "kraken" 60000 1000)
         1000 1000).

Definition stateS6_tripped : PriceAggregator :=
  snd (computeUpdate (ingestTick stateS6_accepted "kraken" 72000 6000) 6000 6000).

(** Five seconds after the trip the price is back at 61000. *)
Definition stateS6_back_in_range : PriceAggregator :=
  ingestTick stateS6_tripped "kraken" 61000 11000.

(** Sixty seconds after the trip the price is still 72000. *)
Definition stateS6_after_hold : PriceAggregator :=
  ingestTick stateS6_tripped "kraken" 72000 66000.

(** The median [computeUpdate] works with at [now]. *)
Definition currentMedian (a : PriceAggregator) (now : Z) : Q :=
  medianSpec (sort_asc (freshPrices a now)).

(** S2: the loan and the BELOW alert at 60000 of the test suite, in a new
    engine. *)
Definition loanS1 : SelfServiceLoan :=
  mkLoan "tok" 50000 1 (75 # 100) (90 # 100) 44444.

Definition storeS2 : LoanStore :=
  createPriceAlert (createLoan Store.create loanS1) "a1" 0 "tok" 60000 BELOW.

Definition engineS2 : AlertEngine := Alerts.create storeS2.

(** The engine of S2 after the prices 70000, 58000 (the alert fires) and
    65000: the price is above the threshold again. *)
Definition engineS2_fired : AlertEngine :=
  fst (deliver engineS2
         [ (testUpdate 70000 1, 1%Z); (testUpdate 58000 2, 2%Z);
           (testUpdate 65000 3, 3%Z) ]).

(** A new engine over a store whose only alert names a loan that is not
    there. *)
Definition engineOrphan : AlertEngine :=
  Alerts.create (createPriceAlert Store.create "a2" 0 "gone" 60000 BELOW).

(** The update and the state a call of [computeUpdate] comes back with. *)
Definition returnedUpdate (r : option PriceUpdate * PriceAggregator) : PriceUpdate :=
  match fst r with
  | Some u => u
  | None => testUpdate 0 0
  end.

Definition updateS5 : PriceUpdate := returnedUpdate (computeUpdate stateS5 2000 2000).

Definition updateS6_tripped : PriceUpdate :=
  returnedUpdate
    (computeUpdate (ingestTick stateS6_accepted "kraken" 72000 6000) 6000 6000).

(** S3: after the run of S2, a second alert, ABOVE at 80000. *)
Definition engineS3 : AlertEngine :=
  let e := fst (deliver engineS2
                  [ (testUpdate 70000 1, 1%Z); (testUpdate 65000 2, 2%Z);
                    (testUpdate 58000 3, 3%Z); (testUpdate 55000 4, 4%Z) ]) in
  mkEngine (createPriceAlert (store e) "a3" 5 "tok" 80000 ABOVE)
    (previousPrice e) (previousLtvs e).

(** S4: the loan of S1 with an LTV alert, ABOVE at 0.70, in a new engine. *)
Definition engineS4 : AlertEngine :=
  Alerts.create
    (createLtvAlert (createLoan Store.create loanS1) "l1" 0 "tok" (70 # 100) ABOVE).

End Spec.

(* ================================================================= *)
(** ** Further vocabulary *)

Module Terms.
Import Num Types Aggregator Store Alerts Events Oracle Spec.
Local Open Scope Q_scope.

(** The order of the tiers, GREEN lowest. *)
Definition tierRank (t : RiskTier) : nat :=
  match t with
  | GREEN => 0
  | YELLOW => 1
  | ORANGE => 2
  | RED => 3
  | LIQUIDATION => 4
  end.


(** The loans as [createLoan] keeps them: each under its own token. *)
Definition wfLoans (s : LoanStore) : Prop :=
  JsMap.wf (loans s) /\
  forall k l, In (k, l) (loans s) -> Store.token l = k.

(** The LTV of a loan at a price, and the previous LTV the engine holds for
    a token (0 when it holds none). *)
Definition ltvAt (loan : SelfServiceLoan) (p : Q) : Q :=
  loan_amount_usd loan / (btc_collateral loan * p).

Definition previousLtvOf (e : AlertEngine) (tok : string) : Q :=
  match JsMap.get tok (previousLtvs e) with
  | Some v => v
  | None => 0
  end.

Fixpoint total (l : list nat) : nat :=
  match l with
  | [] => 0
  | n :: rest => n + total rest
  end.

(** Whether the loop body of [checkLtvAlerts] fires an alert. *)
Definition ltvFires (s : LoanStore) (prevLtvs : JsMap.t Q) (curr : Q)
    (alert : LtvAlert.t) : bool :=
  negb (LtvAlert.triggered alert)
  && match getLoan s (LtvAlert.token alert) with
     | None => false
     | Some loan =>
         negb (Qleb (btc_collateral loan * curr) 0)
         && ltvCrossed
              (match JsMap.get (LtvAlert.token alert) prevLtvs with
               | Some v => v
               | None => 0
               end)
              (loan_amount_usd loan / (btc_collateral loan * curr)) alert
     end.

(** A run of [emitSystemEvent]. *)
Fixpoint emitAll (b : EventBus) (es : list SystemEvent) : EventBus :=
  match es with
  | [] => b
  | e :: rest => emitAll (emitSystemEvent b e) rest
  end.


(** The price [computeSnapshot] works with: the one it is given, else the
    last price of the store, else 0. *)
Definition snapshotPrice (s : LoanStore) (btcPrice : option Q) : Q :=
  match btcPrice with
  | Some b => b
  | None =>
      match lastPrice s with
      | Some u => price u
      | None => 0
      end
  end.

(** The loan of S1 in a store, and a store with two loans and their
    alerts. *)
Definition storeS1 : LoanStore := createLoan Store.create loanS1.

Definition loanOther : SelfServiceLoan :=
  mkLoan "other" 20000 1 (75 # 100) (90 # 100) 55555.

Definition storeTwoLoans : LoanStore :=
  createLtvAlert
    (createPriceAlert
       (createPriceAlert (createLoan storeS1 loanOther) "p1" 0 "tok" 60000 BELOW)
       "p2" 0 "other" 30000 BELOW)
    "l1" 0 "tok" (70 # 100) ABOVE.

Definition chatsTwoLoans : NumMap.t string :=
  NumMap.set 55555 "other"%string (NumMap.set 44444 "tok"%string NumMap.empty).

(** The loop of [deleteLoan] over a map of any values: the entries whose
    value passes [f] are deleted under their keys. *)
Fixpoint dropWhere {V : Type} (f : V -> bool) (entries m : JsMap.t V) : JsMap.t V :=
  match entries with
  | [] => m
  | (id, v) :: rest => dropWhere f rest (if f v then JsMap.delete id m else m)
  end.

(** The alerts [getPriceAlerts] and [getLtvAlerts] leave out for a token. *)
Definition priceAlertOf (tok : string) (a : PriceAlert.t) : bool :=
  String.eqb (PriceAlert.token a) tok.

Definition ltvAlertOf (tok : string) (a : LtvAlert.t) : bool :=
  String.eqb (LtvAlert.token a) tok.

(** The events [getHistory] chooses from. *)
Definition ofType (b : EventBus) (type : option EventType) : list SystemEvent :=
  match type with
  | Some t => filter (fun e => type_eqb (ev_type e) t) (history b)
  | None => history b
  end.

(** A service that asks for three sources and has heard from two, and the
    bus after its tick at the clock reading 2000. *)
Definition serviceTwoOfThree : PriceOracleService :=
  onSourceTick
    (onSourceTick (Oracle.create (mkConfig 300 10 3 5000)) "kraken" 60000 1000)
    "coinbase" 60500 1000.

Definition busAfterTick : EventBus :=
  emitAll Events.create (snd (tick serviceTwoOfThree 2000 2000)).

End Terms.

(* ================================================================= *)
(** * Properties *)

(** ** Numbers and sorting *)

Module NumFacts.
Import Num.
Local Open Scope Q_scope.

Lemma Qltb_lt (x y : Q) : Qltb x y = true <-> x < y.
Proof.
  unfold Qltb. rewrite negb_true_iff.
  destruct (Qle_bool y x) eqn:E.
  - apply Qle_bool_iff in E. split; [discriminate | intro H; exfalso; lra].
  - split; [intros _ | reflexivity].
    apply Qnot_le_lt. intro H. apply Qle_bool_iff in H. congruence.
Qed.

Lemma Qltb_ge (x y : Q) : Qltb x y = false <-> y <= x.
Proof.
  destruct (Qltb x y) eqn:E.
  - apply Qltb_lt in E. split; [discriminate | intro; exfalso; lra].
  - split; [intros _ | reflexivity].
    apply Qnot_lt_le. intro H. apply Qltb_lt in H. congruence.
Qed.

Lemma Qleb_le (x y : Q) : Qleb x y = true <-> x <= y.
Proof. apply Qle_bool_iff. Qed.

Lemma Qleb_gt (x y : Q) : Qleb x y = false <-> y < x.
Proof.
  destruct (Qleb x y) eqn:E.
  - apply Qleb_le in E. split; [discriminate | intro; exfalso; lra].
  - split; [intros _ | reflexivity].
    apply Qnot_le_lt. intro H. apply Qleb_le in H. congruence.
Qed.

Lemma Qeqb_eq (x y : Q) : Qeqb x y = true <-> x == y.
Proof. apply Qeq_bool_iff. Qed.

Lemma Qeqb_neq (x y : Q) : Qeqb x y = false <-> ~ x == y.
Proof.
  destruct (Qeqb x y) eqn:E.
  - apply Qeqb_eq in E. split; [discriminate | tauto].
  - split; [intros _ H | reflexivity]. apply Qeqb_eq in H. congruence.
Qed.

(** The case analysis the proofs below run on a boolean comparison. *)
Ltac qcases :=
  repeat match goal with
  | H : Qltb _ _ = true |- _ => apply Qltb_lt in H
  | H : Qltb _ _ = false |- _ => apply Qltb_ge in H
  | H : Qleb _ _ = true |- _ => apply Qleb_le in H
  | H : Qleb _ _ = false |- _ => apply Qleb_gt in H
  | H : Qeqb _ _ = true |- _ => apply Qeqb_eq in H
  | H : Qeqb _ _ = false |- _ => apply Qeqb_neq in H
  end.

Lemma insert_asc_perm (x : Q) (l : list Q) : Permutation (insert_asc x l) (x :: l).
Proof.
  induction l as [| y rest IH]; simpl.
  - apply Permutation_refl.
  - destruct (Qleb x y).
    + apply Permutation_refl.
    + eapply Permutation_trans; [apply perm_skip, IH | apply perm_swap].
Qed.

Lemma sort_asc_perm (l : list Q) : Permutation (sort_asc l) l.
Proof.
  induction l as [| x rest IH]; simpl.
  - apply perm_nil.
  - eapply Permutation_trans; [apply insert_asc_perm | apply perm_skip, IH].
Qed.

Lemma insert_asc_sorted (x : Q) (l : list Q) :
  Sorted Qle l -> Sorted Qle (insert_asc x l).
Proof.
  induction l as [| y rest IH]; simpl; intro Hs.
  - repeat constructor.
  - destruct (Qleb x y) eqn:E; qcases.
    + constructor; [exact Hs | constructor; exact E].
    + inversion Hs as [| ? ? Hrest Hhd]; subst.
      constructor; [apply IH; exact Hrest |].
      destruct rest as [| z rest']; simpl.
      * constructor. lra.
      * destruct (Qleb x z); constructor; [lra |].
        inversion Hhd; subst; assumption.
Qed.

Lemma sort_asc_sorted (l : list Q) : Sorted Qle (sort_asc l).
Proof.
  induction l as [| x rest IH]; simpl.
  - constructor.
  - apply insert_asc_sorted, IH.
Qed.

Lemma sort_asc_length (l : list Q) : length (sort_asc l) = length l.
Proof. apply Permutation_length, sort_asc_perm. Qed.

(** *** Maps *)

Lemma get_set_same {V : Type} (k : string) (v : V) (m : JsMap.t V) :
  JsMap.get k (JsMap.set k v m) = Some v.
Proof.
  induction m as [| [k' v'] rest IH]; simpl.
  - now rewrite String.eqb_refl.
  - destruct (String.eqb k k') eqn:E; simpl; rewrite E; [reflexivity | exact IH].
Qed.

Lemma get_set_other {V : Type} (k k0 : string) (v : V) (m : JsMap.t V) :
  k0 <> k -> JsMap.get k0 (JsMap.set k v m) = JsMap.get k0 m.
Proof.
  intro Hne. induction m as [| [k' v'] rest IH]; simpl.
  - apply String.eqb_neq in Hne. now rewrite Hne.
  - destruct (String.eqb k k') eqn:E; simpl.
    + apply String.eqb_eq in E. subst k'.
      apply String.eqb_neq in Hne. now rewrite Hne.
    + destruct (String.eqb k0 k'); [reflexivity | exact IH].
Qed.

Lemma keys_set_In {V : Type} (k k0 : string) (v : V) (m : JsMap.t V) :
  In k0 (JsMap.keys (JsMap.set k v m)) -> k0 = k \/ In k0 (JsMap.keys m).
Proof.
  unfold JsMap.keys. induction m as [| [k' v'] rest IH]; simpl.
  - intros [H | []]. now left.
  - destruct (String.eqb k k') eqn:E; simpl.
    + tauto.
    + intros [H | H]; [tauto |]. destruct (IH H); tauto.
Qed.

(** [set] keeps the keys of a [Map] distinct. *)
Lemma wf_set {V : Type} (k : string) (v : V) (m : JsMap.t V) :
  JsMap.wf m -> JsMap.wf (JsMap.set k v m).
Proof.
  unfold JsMap.wf. induction m as [| [k' v'] rest IH]; simpl; intro Hwf.
  - repeat constructor. intros [].
  - inversion Hwf as [| ? ? Hnotin Hwf']; subst.
    destruct (String.eqb k k') eqn:E; simpl.
    + now constructor.
    + constructor; [| now apply IH].
      intro Hin. apply keys_set_In in Hin. destruct Hin as [-> | Hin].
      * now rewrite String.eqb_refl in E.
      * now apply Hnotin.
Qed.

Lemma In_set {V : Type} (k k0 : string) (v v0 : V) (m : JsMap.t V) :
  In (k0, v0) (JsMap.set k v m) -> (k0 = k /\ v0 = v) \/ In (k0, v0) m.
Proof.
  induction m as [| [k' v'] rest IH]; simpl.
  - intros [H | []]. inversion H. now left.
  - destruct (String.eqb k k') eqn:E; simpl.
    + apply String.eqb_eq in E. subst k'.
      intros [H | H]; [inversion H; now left | now right; right].
    + intros [H | H]; [now right; left |].
      destruct (IH H); [now left | now right; right].
Qed.

End NumFacts.

(* ================================================================= *)
(** ** The price aggregator *)

Module AggregatorFacts.
Import Num NumFacts Types Aggregator Spec.
Local Open Scope Q_scope.

Lemma collectActive_prices (now : Z) (m : JsMap.t SourceTick) :
  map active_price (collectActive now m)
  = map snd (map (fun kv => (fst kv, tick_price (snd kv)))
               (filter (fun kv => freshb now (snd kv)) m)).
Proof.
  induction m as [| [src data] rest IH]; simpl; [reflexivity |].
  unfold freshb, staleThreshold in *.
  destruct (now - tick_timestamp data <? 30000)%Z; simpl; now rewrite IH.
Qed.

Lemma collectActive_names (now : Z) (m : JsMap.t SourceTick) :
  map source (collectActive now m)
  = map fst (map (fun kv => (fst kv, tick_price (snd kv)))
               (filter (fun kv => freshb now (snd kv)) m)).
Proof.
  induction m as [| [src data] rest IH]; simpl; [reflexivity |].
  unfold freshb, staleThreshold in *.
  destruct (now - tick_timestamp data <? 30000)%Z; simpl; now rewrite IH.
Qed.

Lemma activePrices_fresh (a : PriceAggregator) (now : Z) :
  map active_price (collectActive now (sourcePrices a)) = freshPrices a now.
Proof. apply collectActive_prices. Qed.

Lemma activeNames_fresh (a : PriceAggregator) (now : Z) :
  map source (collectActive now (sourcePrices a)) = freshNames a now.
Proof. apply collectActive_names. Qed.

Lemma collectActive_nil_iff (now : Z) (m : JsMap.t SourceTick) :
  collectActive now m = [] <->
  ~ exists src t, In (src, t) m /\ fresh now t.
Proof.
  unfold fresh. induction m as [| [src data] rest IH]; simpl.
  - split; [intros _ (s & t & [] & _) | reflexivity].
  - unfold staleThreshold.
    destruct (now - tick_timestamp data <? 30000)%Z eqn:E.
    + apply Z.ltb_lt in E. split; [discriminate |].
      intro H. exfalso. apply H. exists src, data. auto.
    + apply Z.ltb_ge in E. rewrite IH. split; intros H (s & t & Hin & Hf); apply H.
      * destruct Hin as [Heq | Hin]; [inversion Heq; subst; lia |].
        exists s, t. auto.
      * exists s, t. auto.
Qed.

(** What [computeUpdate] returns when some source is fresh: one of the two
    [return] statements of the source. *)
Lemma computeUpdate_some (a : PriceAggregator) (now nowTwap : Z) :
  collectActive now (sourcePrices a) <> [] ->
  exists u a', computeUpdate a now nowTwap = (Some u, a') /\
    price u = medianOfSorted (sort_asc (freshPrices a now)) /\
    timestamp u = now /\
    sources u = freshNames a now /\
    confidence u = computeConfidence (collectActive now (sourcePrices a)) /\
    twap_5m u = computeTwap a' twapWindowMs nowTwap.
Proof.
  intro Hne. unfold computeUpdate.
  rewrite <- activePrices_fresh, <- activeNames_fresh.
  destruct (collectActive now (sourcePrices a)) as [| s0 act] eqn:Hact;
    [congruence |].
  unfold acceptMedian.
  repeat match goal with
         | |- context [if ?b then _ else _] => destruct b
         end;
    eexists; eexists; (split; [reflexivity |]); simpl; auto.
Qed.

Lemma computeUpdate_none_iff (a : PriceAggregator) (now nowTwap : Z) :
  fst (computeUpdate a now nowTwap) = None <->
  collectActive now (sourcePrices a) = [].
Proof.
  split.
  - intro H. destruct (collectActive now (sourcePrices a)) eqn:E; [reflexivity |].
    destruct (computeUpdate_some a now nowTwap) as (u & a' & Hc & _);
      [congruence |].
    rewrite Hc in H. discriminate.
  - intro H. unfold computeUpdate. now rewrite H.
Qed.

(** C5.  [computeUpdate] returns [null] exactly when no source holds a tick
    younger than 30 000 ms at the moment of the call; when some source holds
    such a tick, it returns an update. *)
Theorem C5_null_iff_no_fresh_tick (a : PriceAggregator) (now nowTwap : Z) :
  (fst (computeUpdate a now nowTwap) = None <->
   ~ exists src t, In (src, t) (sourcePrices a) /\
                   (now - tick_timestamp t < 30000)%Z)
  /\
  ((exists src t, In (src, t) (sourcePrices a) /\
                  (now - tick_timestamp t < 30000)%Z) ->
   exists u, fst (computeUpdate a now nowTwap) = Some u).
Proof.
  split.
  - rewrite computeUpdate_none_iff. apply collectActive_nil_iff.
  - intro Hex.
    destruct (computeUpdate_some a now nowTwap) as (u & a' & Hc & _).
    + intro Hnil. apply collectActive_nil_iff in Hnil. exact (Hnil Hex).
    + exists u. now rewrite Hc.
Qed.
(** *** The median *)

Lemma medianOfSorted_spec (P : list Q) : medianOfSorted P = medianSpec P.
Proof.
  unfold medianOfSorted, medianSpec.
  now rewrite <- Nat.bit0_odd, Nat.bit0_eqb.
Qed.

Lemma Sorted_map_Qred (l : list Q) : Sorted Qle l -> Sorted Qle (map Qred l).
Proof.
  induction 1 as [| x l Hs IH Hhd]; simpl; constructor; [exact IH |].
  destruct Hhd as [| y l' Hxy]; simpl; constructor.
  now rewrite !Qred_correct.
Qed.

Lemma StronglySorted_Qle (l : list Q) : Sorted Qle l -> StronglySorted Qle l.
Proof.
  apply Sorted_StronglySorted. intros x y z Hxy Hyz. lra.
Qed.

(** Two ascending arrangements of the same values are equal as soon as
    equal values are the same fraction. *)
Lemma sorted_perm_unique (l1 : list Q) :
  forall l2,
    Sorted Qle l1 -> Sorted Qle l2 -> Permutation l1 l2 ->
    (forall x y, In x l1 -> In y l1 -> x == y -> x = y) ->
    l1 = l2.
Proof.
  induction l1 as [| a l1 IH]; intros l2 Hs1 Hs2 Hp Hcanon.
  - symmetry. now apply Permutation_nil.
  - destruct l2 as [| b l2].
    + apply Permutation_sym, Permutation_nil in Hp. discriminate.
    + assert (Hab : a = b).
      { apply StronglySorted_Qle in Hs1. apply StronglySorted_Qle in Hs2.
        inversion Hs1 as [| ? ? _ Hall1]; subst.
        inversion Hs2 as [| ? ? _ Hall2]; subst.
        rewrite Forall_forall in Hall1, Hall2.
        assert (Hb : In b (a :: l1))
          by (eapply Permutation_in; [apply Permutation_sym, Hp | now left]).
        assert (Ha : In a (b :: l2))
          by (eapply Permutation_in; [apply Hp | now left]).
        apply Hcanon; [now left | exact Hb |].
        assert (a <= b) by (destruct Hb as [-> | Hb]; [lra | now apply Hall1]).
        assert (b <= a) by (destruct Ha as [-> | Ha]; [lra | now apply Hall2]).
        lra. }
      subst b. f_equal. apply IH.
      * now inversion Hs1.
      * now inversion Hs2.
      * eapply Permutation_cons_inv, Hp.
      * intros x y Hx Hy. apply Hcanon; now right.
Qed.

Lemma sorted_perm_nth (l1 l2 : list Q) (i : nat) :
  Sorted Qle l1 -> Sorted Qle l2 -> Permutation l1 l2 ->
  nth i l1 0 == nth i l2 0.
Proof.
  intros Hs1 Hs2 Hp.
  assert (E : map Qred l1 = map Qred l2).
  { apply sorted_perm_unique.
    - now apply Sorted_map_Qred.
    - now apply Sorted_map_Qred.
    - now apply Permutation_map.
    - intros x y Hx Hy Hxy.
      apply in_map_iff in Hx. destruct Hx as (x0 & <- & _).
      apply in_map_iff in Hy. destruct Hy as (y0 & <- & _).
      apply Qred_complete. now rewrite !Qred_correct in Hxy. }
  rewrite <- (Qred_correct (nth i l1 0)), <- (Qred_correct (nth i l2 0)).
  change 0 with (Qred 0) at 1 2.
  rewrite <- !(map_nth Qred). now rewrite E.
Qed.

Lemma medianSpec_unique (l1 l2 : list Q) :
  Sorted Qle l1 -> Sorted Qle l2 -> Permutation l1 l2 ->
  medianSpec l1 == medianSpec l2.
Proof.
  intros Hs1 Hs2 Hp. unfold medianSpec.
  rewrite (Permutation_length Hp).
  destruct (Nat.odd (length l2)).
  - now apply sorted_perm_nth.
  - rewrite (sorted_perm_nth l1 l2 (length l2 / 2 - 1)) by assumption.
    rewrite (sorted_perm_nth l1 l2 (length l2 / 2)) by assumption.
    reflexivity.
Qed.

Lemma sort_asc_sortedPrices (a : PriceAggregator) (now : Z) :
  sortedPrices a now (sort_asc (freshPrices a now)).
Proof. split; [apply sort_asc_perm | apply sort_asc_sorted]. Qed.

Lemma computeUpdate_price (a a' : PriceAggregator) (now nowTwap : Z) (u : PriceUpdate) :
  computeUpdate a now nowTwap = (Some u, a') ->
  price u = medianSpec (sort_asc (freshPrices a now)) /\
  sources u = freshNames a now /\
  confidence u = computeConfidence (collectActive now (sourcePrices a)) /\
  twap_5m u = computeTwap a' twapWindowMs nowTwap /\
  collectActive now (sourcePrices a) <> [].
Proof.
  intro H.
  assert (Hne : collectActive now (sourcePrices a) <> []).
  { intro Hnil. apply (computeUpdate_none_iff a now nowTwap) in Hnil.
    rewrite H in Hnil. discriminate. }
  destruct (computeUpdate_some a now nowTwap Hne)
    as (u1 & a1 & Hc & Hp & _ & Hs & Hconf & Htw).
  rewrite H in Hc. inversion Hc; subst u1 a1.
  rewrite <- medianOfSorted_spec. auto.
Qed.

(** C6.  The price of a returned update is the median of the fresh prices:
    with [P] the fresh prices in ascending order and [n] its length, it is
    [P[n/2]] for odd [n] and the mean of [P[n/2 - 1]] and [P[n/2]] for even
    [n]; such a [P] exists; and for three fresh prices [x <= y <= z], in
    any order of arrival, it is [y]. *)
Theorem C6_price_is_median
    (a a' : PriceAggregator) (now nowTwap : Z) (u : PriceUpdate) :
  computeUpdate a now nowTwap = (Some u, a') ->
  (exists P, sortedPrices a now P) /\
  (forall P, sortedPrices a now P ->
     let n := length P in
     (Nat.odd n = true -> price u == nth (n / 2) P 0) /\
     (Nat.even n = true ->
        price u == (nth (n / 2 - 1) P 0 + nth (n / 2) P 0) / 2)) /\
  (forall x y z,
     Permutation [x; y; z] (freshPrices a now) -> x <= y -> y <= z ->
     price u == y).
Proof.
  intro H. apply computeUpdate_price in H. destruct H as (Hp & _).
  assert (Hgen : forall P, sortedPrices a now P -> price u == medianSpec P).
  { intros P [Hperm Hsorted]. rewrite Hp.
    apply medianSpec_unique;
      [apply sort_asc_sorted | exact Hsorted |].
    eapply Permutation_trans; [apply sort_asc_perm | apply Permutation_sym, Hperm]. }
  split; [| split].
  - eexists. apply sort_asc_sortedPrices.
  - intros P HP n. specialize (Hgen P HP). unfold medianSpec in Hgen.
    fold n in Hgen. split; intro Hpar.
    + now rewrite Hpar in Hgen.
    + rewrite <- Nat.negb_odd in Hpar. apply negb_true_iff in Hpar.
      now rewrite Hpar in Hgen.
  - intros x y z Hperm Hxy Hyz.
    rewrite (Hgen [x; y; z]); [reflexivity |].
    split; [exact Hperm | repeat constructor; assumption].
Qed.

(** *** Confidence *)








Lemma freshSet_length (a : PriceAggregator) (now : Z) :
  length (collectActive now (sourcePrices a)) = length (freshSet a now).
Proof.
  rewrite <- (length_map active_price), activePrices_fresh.
  unfold freshPrices. apply length_map.
Qed.



(** *** Scenario S5 *)

Lemma ingestS5_active (a : PriceAggregator) (t1 t2 t3 now : Z) :
  sourcePrices a = [] ->
  (now - t1 < 30000)%Z -> (now - t2 < 30000)%Z -> (now - t3 < 30000)%Z ->
  collectActive now (sourcePrices (ingestS5 a t1 t2 t3))
  = [ mkActive "kraken" 60000; mkActive "coinbase" 60500;
      mkActive "bitstamp" 60200 ].
Proof.
  intros Hempty H1 H2 H3. unfold ingestS5, ingestTick. simpl. rewrite Hempty.
  simpl. unfold staleThreshold.
  apply Z.ltb_lt in H1, H2, H3. now rewrite H1, H2, H3.
Qed.

(** C8, as the code has it.  After exactly the three fresh ticks
    kraken = 60000, coinbase = 60500 and bitstamp = 60200, [computeUpdate]
    returns the price 60200, the three names, and the confidence MEDIUM:
    the spread 500 / 60000 is between 0.005 and 0.01. *)
Theorem C8_three_ticks_median_and_medium
    (a : PriceAggregator) (t1 t2 t3 now nowTwap : Z) :
  sourcePrices a = [] ->
  (now - t1 < 30000)%Z -> (now - t2 < 30000)%Z -> (now - t3 < 30000)%Z ->
  exists u a',
    computeUpdate (ingestS5 a t1 t2 t3) now nowTwap = (Some u, a') /\
    price u == 60200 /\
    Permutation (sources u) ["kraken"; "coinbase"; "bitstamp"]%string /\
    confidence u = MEDIUM.
Proof.
  intros Hempty H1 H2 H3.
  pose proof (ingestS5_active a t1 t2 t3 now Hempty H1 H2 H3) as Hact.
  destruct (computeUpdate_some (ingestS5 a t1 t2 t3) now nowTwap)
    as (u & a' & Hc & Hp & _ & Hs & Hconf & _).
  { rewrite Hact. discriminate. }
  exists u, a'. split; [exact Hc |].
  rewrite <- activePrices_fresh in Hp. rewrite <- activeNames_fresh in Hs.
  rewrite Hact in Hp, Hs, Hconf. split; [| split].
  - rewrite Hp. reflexivity.
  - rewrite Hs. apply Permutation_refl.
  - rewrite Hconf. reflexivity.
Qed.

Lemma C8_three_ticks_witness :
  exists u a',
    computeUpdate stateS5 2000 2000 = (Some u, a') /\
    price u == 60200 /\
    Permutation (sources u) ["kraken"; "coinbase"; "bitstamp"]%string /\
    confidence u = MEDIUM.
Proof.
  apply (C8_three_ticks_median_and_medium
           (Aggregator.create oracleConfig) 1000 1000 1000 2000 2000);
    reflexivity.
Defined.

(** C8 as stated fails on the ticks of S5: the confidence is not HIGH. *)
Lemma C8_confidence_not_high :
  ~ exists u,
      fst (computeUpdate stateS5 2000 2000) = Some u /\
      price u == 60200 /\
      Permutation (sources u) ["kraken"; "coinbase"; "bitstamp"]%string /\
      confidence u = HIGH.
Proof.
  intros (u & Hu & _ & _ & Hc).
  vm_compute in Hu. inversion Hu; subst u. discriminate Hc.
Qed.

(** *** The time-weighted average *)

Lemma twapLoop_spec (now : Z) (ws : list PriceSample) :
  forall weightedSum totalWeight,
    fst (twapLoop now ws weightedSum totalWeight)
      == weightedSum + weightedSumSpec now ws /\
    snd (twapLoop now ws weightedSum totalWeight)
      == totalWeight + totalWeightSpec now ws.
Proof.
  unfold weightedSumSpec, totalWeightSpec.
  induction ws as [| s rest IH]; intros acc1 acc2.
  - simpl. split; ring.
  - cbn [twapLoop weights map dotQ sumQ].
    destruct (IH (acc1 + sample_price s *
                    inject_Z (match rest with
                              | next :: _ => sample_timestamp next
                              | [] => now
                              end - sample_timestamp s))
                 (acc2 + inject_Z (match rest with
                                   | next :: _ => sample_timestamp next
                                   | [] => now
                                   end - sample_timestamp s))) as [H1 H2].
    rewrite H1, H2. split; ring.
Qed.

(** The weights of a window add up to the time from its first sample to
    [now]. *)
Lemma totalWeight_telescopes (now : Z) (s : PriceSample) (ws : list PriceSample) :
  totalWeightSpec now (s :: ws) == inject_Z (now - sample_timestamp s).
Proof.
  unfold totalWeightSpec. revert s.
  induction ws as [| s' rest IH]; intro s.
  - simpl. ring.
  - change (weights now (s :: s' :: rest))
      with (inject_Z (sample_timestamp s' - sample_timestamp s)
            :: weights now (s' :: rest)).
    cbn [sumQ]. rewrite IH. unfold Zminus.
    rewrite !inject_Z_plus, !inject_Z_opp. ring.
Qed.

Lemma computeTwap_spec (a : PriceAggregator) (windowMs now : Z) :
  let W := inWindow a windowMs now in
  (W = [] ->
     computeTwap a windowMs now == lastKnownGoodPrice a /\
     (lastKnownGoodPrice a == 0 -> computeTwap a windowMs now == 0)) /\
  (forall s, W = [s] -> computeTwap a windowMs now == sample_price s) /\
  (forall s rest, W = s :: rest -> rest <> [] ->
     totalWeightSpec now W == inject_Z (now - sample_timestamp s) /\
     ((sample_timestamp s < now)%Z ->
      computeTwap a windowMs now
        == weightedSumSpec now W / totalWeightSpec now W)).
Proof.
  intro W. unfold computeTwap.
  change (windowOf a windowMs now) with W.
  split; [| split].
  - intros ->. destruct (Qeqb (lastKnownGoodPrice a) 0) eqn:E; qcases.
    + split; [now rewrite E | reflexivity].
    + split; [reflexivity | intro H; now rewrite H].
  - intros s ->. reflexivity.
  - intros s rest HW Hrest.
    pose proof (totalWeight_telescopes now s rest) as Htel.
    rewrite <- HW in Htel. split; [exact Htel |]. intro Hold.
    assert (Hpos : 0 < totalWeightSpec now W).
    { rewrite Htel. change 0 with (inject_Z 0). rewrite <- Zlt_Qlt. lia. }
    destruct (twapLoop_spec now W 0 0) as [H1 H2].
    destruct rest as [| s2 rest]; [congruence |].
    rewrite HW at 1.
    destruct (twapLoop now W 0 0) as [wsum wtot]. simpl in H1, H2.
    rewrite Qplus_0_l in H1, H2.
    destruct (Qltb 0 wtot) eqn:E; qcases.
    + now rewrite H1, H2.
    + exfalso. lra.
Qed.

(** When no time has passed since the first sample of the window, the
    weights are all spent and [computeTwap] falls back on the last price. *)
Lemma computeTwap_no_weight (a : PriceAggregator) (windowMs now : Z)
    (s1 s2 : PriceSample) (rest : list PriceSample) :
  inWindow a windowMs now = s1 :: s2 :: rest ->
  (now <= sample_timestamp s1)%Z ->
  computeTwap a windowMs now
  = sample_price (last (s1 :: s2 :: rest) (mkSample 0 0%Z [])).
Proof.
  intros HW Hnow. unfold computeTwap.
  change (windowOf a windowMs now) with (inWindow a windowMs now).
  pose proof (totalWeight_telescopes now s1 (s2 :: rest)) as Htel.
  rewrite HW.
  destruct (twapLoop_spec now (s1 :: s2 :: rest) 0 0) as [_ H2].
  destruct (twapLoop now (s1 :: s2 :: rest) 0 0) as [wsum wtot]. simpl in H2.
  rewrite Qplus_0_l in H2.
  assert (Hle : totalWeightSpec now (s1 :: s2 :: rest) <= 0).
  { rewrite Htel. change 0 with (inject_Z 0). rewrite <- Zle_Qle. lia. }
  destruct (Qltb 0 wtot) eqn:E; qcases; [exfalso; lra | reflexivity].
Qed.

(** C9.  The [twap_5m] of a returned update is taken over the samples of
    the trailing five minutes, as they stand after the update's own sample
    is appended: an empty window gives the last known good price (0 when
    there is none), a window of one sample gives that sample's price, and a
    longer window, its first sample older than the clock reading, gives the
    average of the prices weighted by the interval from each sample to the
    next (to the clock reading for the last); the weights add up to the
    time since the first sample. *)
Theorem C9_twap_weighted_over_window
    (a a' : PriceAggregator) (now nowTwap : Z) (u : PriceUpdate) :
  computeUpdate a now nowTwap = (Some u, a') ->
  let W := inWindow a' 300000 nowTwap in
  (W = [] ->
     twap_5m u == lastKnownGoodPrice a' /\
     (lastKnownGoodPrice a' == 0 -> twap_5m u == 0)) /\
  (forall s, W = [s] -> twap_5m u == sample_price s) /\
  (forall s rest, W = s :: rest -> rest <> [] ->
     totalWeightSpec nowTwap W == inject_Z (nowTwap - sample_timestamp s) /\
     ((sample_timestamp s < nowTwap)%Z ->
      twap_5m u == weightedSumSpec nowTwap W / totalWeightSpec nowTwap W)).
Proof.
  intros H W. apply computeUpdate_price in H.
  destruct H as (_ & _ & _ & Htw & _). rewrite Htw.
  apply (computeTwap_spec a' twapWindowMs nowTwap).
Qed.

(** *** The circuit breaker *)

Lemma addSample_fields (a : PriceAggregator) (s : PriceSample) :
  lastKnownGoodPrice (addSample a s) = lastKnownGoodPrice a /\
  circuitBreakerActive (addSample a s) = circuitBreakerActive a /\
  circuitBreakerTriggeredAt (addSample a s) = circuitBreakerTriggeredAt a /\
  sourcePrices (addSample a s) = sourcePrices a /\
  config (addSample a s) = config a.
Proof.
  unfold addSample.
  destruct (maxSamples <? length (samples a ++ [s]))%nat; simpl; auto.
Qed.

(** [addSample] keeps a suffix of the old samples and puts the new one last;
    the ring never exceeds [maxSamples] once it is within it. *)
Lemma addSample_samples (a : PriceAggregator) (s : PriceSample) :
  exists k, samples (addSample a s) = skipn k (samples a) ++ [s].
Proof.
  unfold addSample.
  destruct (maxSamples <? length (samples a ++ [s]))%nat eqn:E; simpl.
  - exists (length (samples a ++ [s]) - maxSamples)%nat.
    rewrite skipn_app.
    replace (length (samples a ++ [s]) - maxSamples - length (samples a))%nat
      with 0%nat; [reflexivity |].
    rewrite length_app. simpl. unfold maxSamples. lia.
  - exists 0%nat. reflexivity.
Qed.

Lemma addSample_bounded (a : PriceAggregator) (s : PriceSample) :
  (0 < length (samples (addSample a s)) <= maxSamples)%nat.
Proof.
  unfold addSample.
  destruct (maxSamples <? length (samples a ++ [s]))%nat eqn:E; simpl.
  - apply Nat.ltb_lt in E. rewrite length_skipn. unfold maxSamples in *. lia.
  - apply Nat.ltb_ge in E. rewrite length_app in *. simpl in *. lia.
Qed.

(** The three ways through [computeUpdate], by the state it starts in:
    no fresh source; the median is held back; the median is accepted. *)
Lemma computeUpdate_cases (a : PriceAggregator) (now nowTwap : Z) :
  let med := medianSpec (sort_asc (freshPrices a now)) in
  let hold :=
    0 < lastKnownGoodPrice a /\ deviates a med /\
    (circuitBreakerActive a = true ->
     (now - circuitBreakerTriggeredAt a < 60000)%Z) in
  (freshSet a now = [] /\ computeUpdate a now nowTwap = (None, a)) \/
  (freshSet a now <> [] /\ hold /\
   exists u a',
     computeUpdate a now nowTwap = (Some u, a') /\
     price u = med /\ circuit_breaker u = true /\
     a' = addSample
            (if circuitBreakerActive a then a
             else with_circuitBreakerTriggeredAt
                    (with_circuitBreakerActive a true) now)
            (mkSample (lastKnownGoodPrice a) now (freshNames a now))) \/
  (freshSet a now <> [] /\ ~ hold /\
   exists u a',
     computeUpdate a now nowTwap = (Some u, a') /\
     price u = med /\ circuit_breaker u = false /\
     a' = addSample
            (with_lastKnownGoodPrice
               (if Qltb 0 (lastKnownGoodPrice a)
                then with_circuitBreakerActive a false else a) med)
            (mkSample med now (freshNames a now))).
Proof.
  intros med hold. subst med hold. unfold deviates.
  rewrite <- medianOfSorted_spec.
  assert (Hlen := freshSet_length a now).
  unfold computeUpdate.
  rewrite <- activePrices_fresh, <- activeNames_fresh.
  destruct (collectActive now (sourcePrices a)) as [| s0 act] eqn:Hact.
  { left. split; [| reflexivity].
    destruct (freshSet a now); [reflexivity | discriminate]. }
  right.
  assert (Hne : freshSet a now <> [])
    by (destruct (freshSet a now); [discriminate | congruence]).
  set (med := medianOfSorted (sort_asc (map active_price (s0 :: act)))).
  unfold acceptMedian, tripHoldMs.
  destruct (Qltb 0 (lastKnownGoodPrice a)) eqn:Elkg; qcases.
  - destruct (Qltb (circuit_breaker_pct (config a) / 100)
                (Qabs (med - lastKnownGoodPrice a) / lastKnownGoodPrice a))
      eqn:Edev; qcases.
    + destruct (circuitBreakerActive a) eqn:Eact; cbn [negb].
      * destruct (now - circuitBreakerTriggeredAt a <? 60000)%Z eqn:Ehold.
        -- apply Z.ltb_lt in Ehold. left. split; [exact Hne |].
           split; [auto |]. eexists; eexists; repeat split.
        -- apply Z.ltb_ge in Ehold. right. split; [exact Hne |].
           split; [intros (_ & _ & H); specialize (H eq_refl); lia |].
           eexists; eexists; repeat split.
      * cbn [circuitBreakerTriggeredAt with_circuitBreakerTriggeredAt
               with_circuitBreakerActive].
        rewrite Z.sub_diag. cbn [Z.ltb Z.compare].
        left. split; [exact Hne |]. split; [split; [| split]; auto; discriminate |].
        eexists; eexists; repeat split.
    + right. split; [exact Hne |]. split; [intros (_ & H & _); lra |].
      eexists; eexists; repeat split.
  - right. split; [exact Hne |]. split; [intros (H & _); lra |].
    eexists; eexists; repeat split.
Qed.

(** *** Invariants of the aggregator *)

(** A tripped breaker always has a positive last known good price to hold
    on to, and the ring of samples stays within [maxSamples]. *)
Lemma reachable_invariant (a : PriceAggregator) :
  reachable a ->
  (circuitBreakerActive a = true -> 0 < lastKnownGoodPrice a) /\
  (length (samples a) <= maxSamples)%nat.
Proof.
  induction 1 as [cfg | a cfg _ IH | a src p ts _ IH | a now nowTwap _ IH].
  - simpl. split; [discriminate | unfold maxSamples; lia].
  - exact IH.
  - exact IH.
  - destruct IH as [IHb IHs].
    destruct (computeUpdate_cases a now nowTwap)
      as [[_ Hc] | [(_ & (Hpos & _) & u & a' & Hc & _ & _ & Ha') |
                    (_ & _ & u & a' & Hc & _ & _ & Ha')]];
      rewrite Hc; simpl.
    + now split.
    + subst a'. split; [| apply addSample_bounded]. intros _.
      match goal with
      | |- context [addSample ?x ?s] =>
          destruct (addSample_fields x s) as (-> & _)
      end.
      now destruct (circuitBreakerActive a).
    + subst a'. split; [| apply addSample_bounded]. intro Hact.
      match goal with
      | H : context [addSample ?x ?s] |- _ =>
          destruct (addSample_fields x s) as (_ & Hflag & _)
      end.
      rewrite Hflag in Hact. simpl in Hact.
      destruct (Qltb 0 (lastKnownGoodPrice a)) eqn:E; simpl in Hact;
        [discriminate |].
      qcases. specialize (IHb Hact). exfalso. lra.
Qed.

Lemma lastKnownGood_only_from_accepted (b : PriceAggregator) (t t' : Z) :
  lastKnownGoodPrice (snd (computeUpdate b t t')) = lastKnownGoodPrice b \/
  exists v, fst (computeUpdate b t t') = Some v /\
            circuit_breaker v = false /\
            price v = currentMedian b t /\
            lastKnownGoodPrice (snd (computeUpdate b t t')) = price v.
Proof.
  destruct (computeUpdate_cases b t t')
    as [[_ Hc] | [(_ & _ & u & a' & Hc & Hp & Hcb & Ha') |
                  (_ & _ & u & a' & Hc & Hp & Hcb & Ha')]];
    rewrite Hc; simpl.
  - now left.
  - left. subst a'. destruct (addSample_fields
      (if circuitBreakerActive b then b
       else with_circuitBreakerTriggeredAt (with_circuitBreakerActive b true) t)
      (mkSample (lastKnownGoodPrice b) t (freshNames b t))) as (-> & _).
    now destruct (circuitBreakerActive b).
  - right. exists u. repeat split; auto. subst a'.
    destruct (addSample_fields
      (with_lastKnownGoodPrice
         (if Qltb 0 (lastKnownGoodPrice b)
          then with_circuitBreakerActive b false else b)
         (medianSpec (sort_asc (freshPrices b t))))
      (mkSample (medianSpec (sort_asc (freshPrices b t))) t (freshNames b t)))
      as (-> & _).
    now rewrite Hp.
Qed.

(** C3, as the code has it.  When the breaker is tripped, fewer than
    60 000 ms have passed since the trip, some source is fresh and the
    current median still deviates from the last known good price by more
    than [circuit_breaker_pct / 100], [computeUpdate] returns the median
    with [circuit_breaker = true], appends a sample that carries the last
    known good price, and leaves that price unchanged.  The last known good
    price is only ever assigned the median of an update returned with
    [circuit_breaker = false]; [ingestTick] leaves it alone. *)
Theorem C3_held_update_keeps_last_known_good
    (a : PriceAggregator) (now nowTwap : Z) :
  reachable a ->
  circuitBreakerActive a = true ->
  (now - circuitBreakerTriggeredAt a < 60000)%Z ->
  freshSet a now <> [] ->
  deviates a (currentMedian a now) ->
  (exists u a',
     computeUpdate a now nowTwap = (Some u, a') /\
     price u = currentMedian a now /\
     circuit_breaker u = true /\
     (exists k, samples a'
                = skipn k (samples a)
                  ++ [mkSample (lastKnownGoodPrice a) now (freshNames a now)]) /\
     lastKnownGoodPrice a' = lastKnownGoodPrice a /\
     circuitBreakerActive a' = true /\
     circuitBreakerTriggeredAt a' = circuitBreakerTriggeredAt a) /\
  (forall b t t',
     lastKnownGoodPrice (snd (computeUpdate b t t')) = lastKnownGoodPrice b \/
     exists v, fst (computeUpdate b t t') = Some v /\
               circuit_breaker v = false /\
               price v = currentMedian b t /\
               lastKnownGoodPrice (snd (computeUpdate b t t')) = price v) /\
  (forall b src p ts,
     lastKnownGoodPrice (ingestTick b src p ts) = lastKnownGoodPrice b).
Proof.
  intros Hreach Hact Hhold Hfresh Hdev.
  assert (Hlkg : 0 < lastKnownGoodPrice a)
    by (now apply (proj1 (reachable_invariant a Hreach))).
  split; [| split].
  - destruct (computeUpdate_cases a now nowTwap)
      as [[Hnil _] | [(_ & _ & u & a' & Hc & Hp & Hcb & Ha') |
                      (_ & Hnot & _)]].
    + contradiction.
    + rewrite Hact in Ha'. exists u, a'.
      destruct (addSample_samples a
                  (mkSample (lastKnownGoodPrice a) now (freshNames a now)))
        as (k & Hk).
      destruct (addSample_fields a
                  (mkSample (lastKnownGoodPrice a) now (freshNames a now)))
        as (Hf1 & Hf2 & Hf3 & _).
      subst a'. repeat split; auto.
      * exists k. exact Hk.
      * now rewrite Hf2.
    + exfalso. apply Hnot. auto.
  - apply lastKnownGood_only_from_accepted.
  - reflexivity.
Qed.

Lemma reachable_stateS6_tripped : reachable stateS6_tripped.
Proof.
  unfold stateS6_tripped, stateS6_accepted. repeat constructor.
Defined.

Lemma C3_held_update_witness :
  let a := ingestTick stateS6_tripped "kraken" 72000 11000 in
  exists u a',
    computeUpdate a 11000 11000 = (Some u, a') /\
    price u = currentMedian a 11000 /\
    circuit_breaker u = true /\
    (exists k, samples a'
               = skipn k (samples a)
                 ++ [mkSample (lastKnownGoodPrice a) 11000 (freshNames a 11000)]) /\
    lastKnownGoodPrice a' = lastKnownGoodPrice a /\
    circuitBreakerActive a' = true /\
    circuitBreakerTriggeredAt a' = circuitBreakerTriggeredAt a.
Proof.
  intro a.
  apply (proj1 (C3_held_update_keeps_last_known_good a 11000 11000
                  (reach_ingestTick _ _ _ _ reachable_stateS6_tripped)
                  ltac:(reflexivity) ltac:(reflexivity)
                  ltac:(discriminate) ltac:(reflexivity))).
Defined.

(** C3 as stated fails in two ways while the breaker of S6 is tripped and
    the 60 s are running.  Five seconds after the trip the tick is back at
    61000: the update is returned with [circuit_breaker = false] and 61000
    becomes the last known good price.  Thirty-four seconds after the trip
    and the last tick, no source is fresh: no update is returned. *)
Lemma C3_breaker_released_within_hold :
  (circuitBreakerActive stateS6_back_in_range = true /\
   (11000 - circuitBreakerTriggeredAt stateS6_back_in_range < 60000)%Z /\
   lastKnownGoodPrice stateS6_back_in_range == 60000 /\
   (exists u a',
      computeUpdate stateS6_back_in_range 11000 11000 = (Some u, a') /\
      price u == 61000 /\
      circuit_breaker u = false /\
      lastKnownGoodPrice a' == 61000) /\
   ~ (exists u a',
        computeUpdate stateS6_back_in_range 11000 11000 = (Some u, a') /\
        circuit_breaker u = true /\
        lastKnownGoodPrice a' = lastKnownGoodPrice stateS6_back_in_range))
  /\
  (circuitBreakerActive stateS6_tripped = true /\
   (40000 - circuitBreakerTriggeredAt stateS6_tripped < 60000)%Z /\
   fst (computeUpdate stateS6_tripped 40000 40000) = None).
Proof.
  split.
  - split; [reflexivity |]. split; [reflexivity |]. split; [reflexivity |].
    split.
    + eexists; eexists. split; [reflexivity |]. repeat split; reflexivity.
    + intros (u & a' & Hc & Hcb & _).
      vm_compute in Hc. inversion Hc; subst u. discriminate Hcb.
  - repeat split; reflexivity.
Qed.

(** C4, as the code has it.  When the breaker of an aggregator has been
    tripped for at least 60 000 ms, its next [computeUpdate] that finds a
    fresh source clears the trip and accepts its median, whether or not it
    still deviates: the update carries [circuit_breaker = false] and the
    median becomes the last known good price.  From then on, as from any state whose breaker is
    not tripped, an update whose median deviates from the last known good
    price by more than [circuit_breaker_pct / 100] trips the breaker again:
    [circuit_breaker = true], the trip is stamped with the clock reading,
    and the last known good price is not advanced. *)
Theorem C4_expired_trip_accepts_median
    (a : PriceAggregator) (now nowTwap : Z) :
  reachable a ->
  freshSet a now <> [] ->
  circuitBreakerActive a = true ->
  (60000 <= now - circuitBreakerTriggeredAt a)%Z ->
  (exists u a',
     computeUpdate a now nowTwap = (Some u, a') /\
     circuitBreakerActive a' = false /\
     circuit_breaker u = false /\
     price u = currentMedian a now /\
     lastKnownGoodPrice a' = currentMedian a now) /\
  (forall b t t',
     circuitBreakerActive b = false ->
     freshSet b t <> [] ->
     0 < lastKnownGoodPrice b ->
     deviates b (currentMedian b t) ->
     exists v b',
       computeUpdate b t t' = (Some v, b') /\
       circuit_breaker v = true /\
       circuitBreakerActive b' = true /\
       circuitBreakerTriggeredAt b' = t /\
       lastKnownGoodPrice b' = lastKnownGoodPrice b).
Proof.
  intros Hreach Hfresh Hact Hexp.
  assert (Hlkg : 0 < lastKnownGoodPrice a)
    by (now apply (proj1 (reachable_invariant a Hreach))).
  split.
  - destruct (computeUpdate_cases a now nowTwap)
      as [[Hnil _] | [(_ & (_ & _ & Hhold) & _) |
                      (_ & _ & u & a' & Hc & Hp & Hcb & Ha')]].
    + contradiction.
    + specialize (Hhold Hact). lia.
    + exists u, a'. repeat split; auto; subst a'.
      * destruct (addSample_fields
          (with_lastKnownGoodPrice
             (if Qltb 0 (lastKnownGoodPrice a)
              then with_circuitBreakerActive a false else a)
             (medianSpec (sort_asc (freshPrices a now))))
          (mkSample (medianSpec (sort_asc (freshPrices a now))) now
             (freshNames a now))) as (_ & -> & _).
        apply Qltb_lt in Hlkg. now rewrite Hlkg.
      * destruct (addSample_fields
          (with_lastKnownGoodPrice
             (if Qltb 0 (lastKnownGoodPrice a)
              then with_circuitBreakerActive a false else a)
             (medianSpec (sort_asc (freshPrices a now))))
          (mkSample (medianSpec (sort_asc (freshPrices a now))) now
             (freshNames a now))) as (-> & _).
        reflexivity.
  - intros b t t' Hoff Hfr Hpos Hdev.
    destruct (computeUpdate_cases b t t')
      as [[Hnil _] | [(_ & _ & v & b' & Hc & Hp & Hcb & Hb') |
                      (_ & Hnot & _)]].
    + contradiction.
    + exists v, b'. rewrite Hoff in Hb'. repeat split; auto; subst b'.
      * now destruct (addSample_fields
          (with_circuitBreakerTriggeredAt (with_circuitBreakerActive b true) t)
          (mkSample (lastKnownGoodPrice b) t (freshNames b t)))
          as (_ & -> & _).
      * now destruct (addSample_fields
          (with_circuitBreakerTriggeredAt (with_circuitBreakerActive b true) t)
          (mkSample (lastKnownGoodPrice b) t (freshNames b t)))
          as (_ & _ & -> & _).
      * now destruct (addSample_fields
          (with_circuitBreakerTriggeredAt (with_circuitBreakerActive b true) t)
          (mkSample (lastKnownGoodPrice b) t (freshNames b t)))
          as (-> & _).
    + exfalso. apply Hnot. repeat split; auto.
      intro Habs. rewrite Hoff in Habs. discriminate.
Qed.

Lemma reachable_stateS6_after_hold : reachable stateS6_after_hold.
Proof.
  unfold stateS6_after_hold. constructor. exact reachable_stateS6_tripped.
Defined.

Lemma C4_expired_trip_witness :
  (exists u a',
     computeUpdate stateS6_after_hold 66000 66000 = (Some u, a') /\
     circuitBreakerActive a' = false /\
     circuit_breaker u = false /\
     price u = currentMedian stateS6_after_hold 66000 /\
     lastKnownGoodPrice a' = currentMedian stateS6_after_hold 66000) /\
  (exists v b',
     computeUpdate (ingestTick stateS6_accepted "kraken" 72000 6000) 6000 6000
       = (Some v, b') /\
     circuit_breaker v = true /\
     circuitBreakerActive b' = true /\
     circuitBreakerTriggeredAt b' = 6000%Z /\
     lastKnownGoodPrice b' = lastKnownGoodPrice stateS6_accepted).
Proof.
  destruct (C4_expired_trip_accepts_median stateS6_after_hold 66000 66000
              reachable_stateS6_after_hold
              ltac:(discriminate) ltac:(reflexivity)
              ltac:(vm_compute; discriminate)) as [H1 H2].
  split; [exact H1 |].
  apply (H2 (ingestTick stateS6_accepted "kraken" 72000 6000) 6000%Z 6000%Z);
    [reflexivity | discriminate | reflexivity | reflexivity].
Defined.

(** C4 as stated fails on S6: sixty seconds after the trip the tick is
    still 72000, 20 percent off the last known good price 60000, and the
    update does not trip the breaker again; it is returned with
    [circuit_breaker = false] and 72000 becomes the last known good price,
    so the update after it, still at 72000, is accepted as well. *)
Lemma C4_no_retrip_after_hold :
  circuitBreakerActive stateS6_after_hold = true /\
  (60000 <= 66000 - circuitBreakerTriggeredAt stateS6_after_hold)%Z /\
  lastKnownGoodPrice stateS6_after_hold == 60000 /\
  currentMedian stateS6_after_hold 66000 == 72000 /\
  deviates stateS6_after_hold (currentMedian stateS6_after_hold 66000) /\
  (exists u a',
     computeUpdate stateS6_after_hold 66000 66000 = (Some u, a') /\
     circuit_breaker u = false /\
     lastKnownGoodPrice a' == 72000 /\
     exists u2 a2,
       computeUpdate (ingestTick a' "kraken" 72000 71000) 71000 71000
         = (Some u2, a2) /\
       price u2 == 72000 /\
       circuit_breaker u2 = false) /\
  ~ (exists u a',
       computeUpdate stateS6_after_hold 66000 66000 = (Some u, a') /\
       circuit_breaker u = true /\
       lastKnownGoodPrice a' = lastKnownGoodPrice stateS6_after_hold).
Proof.
  split; [reflexivity |]. split; [vm_compute; discriminate |].
  split; [reflexivity |]. split; [reflexivity |]. split; [reflexivity |].
  split.
  - eexists; eexists. split; [reflexivity |]. repeat split; try reflexivity.
    eexists; eexists. split; [reflexivity |]. split; reflexivity.
  - intros (u & a' & Hc & Hcb & _).
    vm_compute in Hc. inversion Hc; subst u. discriminate Hcb.
Qed.

(** *** The theorems at the scenarios *)

Lemma computeUpdate_stateS5 :
  computeUpdate stateS5 2000 2000
  = (Some updateS5, snd (computeUpdate stateS5 2000 2000)).
Proof. reflexivity. Defined.

Lemma computeUpdate_stateS6_tripped :
  computeUpdate (ingestTick stateS6_accepted "kraken" 72000 6000) 6000 6000
  = (Some updateS6_tripped, stateS6_tripped).
Proof. reflexivity. Defined.

Lemma C5_null_iff_no_fresh_tick_witness :
  exists u, fst (computeUpdate stateS5 2000 2000) = Some u.
Proof.
  apply (proj2 (C5_null_iff_no_fresh_tick stateS5 2000 2000)).
  exists "kraken"%string, (mkTick 60000 1000).
  split; [left; reflexivity | reflexivity].
Defined.

Lemma C6_price_is_median_witness : price updateS5 == 60200.
Proof.
  apply (proj2 (proj2 (C6_price_is_median stateS5 _ 2000 2000 updateS5
                         computeUpdate_stateS5)) 60000 60200 60500).
  - apply perm_skip. apply perm_swap.
  - discriminate.
  - discriminate.
Defined.


Lemma C9_twap_witness :
  twap_5m updateS6_tripped
  == weightedSumSpec 6000 (inWindow stateS6_tripped 300000 6000)
     / totalWeightSpec 6000 (inWindow stateS6_tripped 300000 6000).
Proof.
  pose proof (C9_twap_weighted_over_window _ stateS6_tripped 6000 6000
                updateS6_tripped computeUpdate_stateS6_tripped) as H.
  cbv zeta in H. destruct H as (_ & _ & Hlong).
  apply (Hlong (mkSample 60000 1000 ["kraken"%string])
               [mkSample 60000 6000 ["kraken"%string]]);
    [reflexivity | discriminate | reflexivity].
Defined.

(** The tick a source holds is the last one ingested for it. *)
Lemma ingestTick_stored (a : PriceAggregator) (src : string) (p : Q) (ts : Z) :
  JsMap.get src (sourcePrices (ingestTick a src p ts)) = Some (mkTick p ts) /\
  (forall other, other <> src ->
     JsMap.get other (sourcePrices (ingestTick a src p ts))
     = JsMap.get other (sourcePrices a)) /\
  (JsMap.wf (sourcePrices a) -> JsMap.wf (sourcePrices (ingestTick a src p ts))).
Proof.
  unfold ingestTick. simpl. split; [apply get_set_same |].
  split; [intros other Hne; now apply get_set_other | apply wf_set].
Qed.

End AggregatorFacts.

(* ================================================================= *)
(** ** Risk tiers *)

Module StoreFacts.
Import Num NumFacts Types Store.
Local Open Scope Q_scope.



(** The assertions of the test suite on [classifyTier], at 0.75 and 0.90. *)
Example classifyTier_test_suite :
  map (fun ltv => classifyTier ltv (75 # 100) (90 # 100))
      [30 # 100; 44 # 100; 46 # 100; 59 # 100; 61 # 100; 74 # 100;
       76 # 100; 89 # 100; 91 # 100; 150 # 100]
  = [GREEN; GREEN; YELLOW; YELLOW; ORANGE; ORANGE; RED; RED;
     LIQUIDATION; LIQUIDATION].
Proof. reflexivity. Qed.

End StoreFacts.

(* ================================================================= *)
(** ** The alert engine *)

Module AlertsFacts.
Import Num NumFacts Types Store Alerts Spec.
Local Open Scope Q_scope.

(** *** Counting effects *)

Lemma notifications_app (k : AlertKind) (id : string) (fx fx' : list Effect) :
  notifications k id (fx ++ fx')
  = (notifications k id fx + notifications k id fx')%nat.
Proof. unfold notifications. now rewrite filter_app, length_app. Qed.

Lemma events_app (k : AlertKind) (id : string) (fx fx' : list Effect) :
  events k id (fx ++ fx') = (events k id fx + events k id fx')%nat.
Proof. unfold events. now rewrite filter_app, length_app. Qed.

(** *** The crossing rule *)

Lemma priceCrossed_rule (prev curr : Q) (alert : PriceAlert.t) :
  priceCrossed prev curr alert = true <->
  crossingRule (PriceAlert.direction alert) prev curr (PriceAlert.threshold alert).
Proof.
  unfold priceCrossed, crossingRule, belowRule, aboveRule.
  destruct (PriceAlert.direction alert);
    rewrite orb_true_iff, !andb_true_iff,
      !Qltb_lt, !Qleb_le, Qeqb_eq; tauto.
Qed.

Lemma checkPriceAlert_fires (s : LoanStore) (prev curr : Q) (now : Z)
    (alert : PriceAlert.t) :
  let r := checkPriceAlert s prev curr now alert in
  let id := PriceAlert.alert_id alert in
  (if priceFires s prev curr alert
   then fst r = PriceAlert.trigger alert now /\
        notifications PriceKind id (snd r) = 1%nat /\
        events PriceKind id (snd r) = 1%nat
   else fst r = alert /\ snd r = []).
Proof.
  unfold priceFires, checkPriceAlert.
  destruct (PriceAlert.triggered alert); simpl; [auto |].
  destruct (getLoan s (PriceAlert.token alert)); simpl; [| auto].
  destruct (priceCrossed prev curr alert); simpl; [| auto].
  unfold notifications, events. simpl. rewrite String.eqb_refl. simpl. auto.
Qed.

Lemma checkPriceAlert_quiet (s : LoanStore) (prev curr : Q) (now : Z)
    (alert : PriceAlert.t) (k : AlertKind) (id : string) :
  (k = PriceKind -> PriceAlert.alert_id alert = id ->
   PriceAlert.triggered alert = true) ->
  notifications k id (snd (checkPriceAlert s prev curr now alert)) = 0%nat /\
  events k id (snd (checkPriceAlert s prev curr now alert)) = 0%nat.
Proof.
  intro H. unfold checkPriceAlert.
  destruct (PriceAlert.triggered alert) eqn:Et; [now split |].
  destruct (getLoan s (PriceAlert.token alert)); [| now split].
  destruct (priceCrossed prev curr alert); [| now split].
  unfold notifications, events. simpl.
  destruct k; simpl; [| now split].
  destruct (String.eqb (PriceAlert.alert_id alert) id) eqn:E; [| now split].
  apply String.eqb_eq in E. specialize (H eq_refl E). discriminate.
Qed.

Lemma checkPriceAlert_keeps (s : LoanStore) (prev curr : Q) (now : Z)
    (alert : PriceAlert.t) :
  let alert' := fst (checkPriceAlert s prev curr now alert) in
  PriceAlert.alert_id alert' = PriceAlert.alert_id alert /\
  PriceAlert.token alert' = PriceAlert.token alert /\
  PriceAlert.threshold alert' = PriceAlert.threshold alert /\
  PriceAlert.direction alert' = PriceAlert.direction alert /\
  (PriceAlert.triggered alert = true -> alert' = alert).
Proof.
  unfold checkPriceAlert.
  destruct (PriceAlert.triggered alert); [simpl; auto |].
  destruct (getLoan s (PriceAlert.token alert)); [| simpl; repeat split; auto; discriminate].
  destruct (priceCrossed prev curr alert); simpl; repeat split; auto; discriminate.
Qed.

(** The loop visits every entry once and leaves the keys as they are. *)
Lemma checkPriceAlertsLoop_map (s : LoanStore) (prev curr : Q) (now : Z)
    (alerts : JsMap.t PriceAlert.t) :
  fst (checkPriceAlertsLoop s prev curr now alerts)
  = map (fun kv => (fst kv, fst (checkPriceAlert s prev curr now (snd kv)))) alerts.
Proof.
  induction alerts as [| [id alert] rest IH]; simpl; [reflexivity |].
  destruct (checkPriceAlert s prev curr now alert) as [alert' fx].
  destruct (checkPriceAlertsLoop s prev curr now rest) as [rest' fx'].
  simpl in *. now rewrite IH.
Qed.

Lemma checkPriceAlertsLoop_quiet (s : LoanStore) (prev curr : Q) (now : Z)
    (k : AlertKind) (id : string) (alerts : JsMap.t PriceAlert.t) :
  (k = PriceKind ->
   forall key a, In (key, a) alerts -> PriceAlert.alert_id a = id ->
                 PriceAlert.triggered a = true) ->
  notifications k id (snd (checkPriceAlertsLoop s prev curr now alerts)) = 0%nat /\
  events k id (snd (checkPriceAlertsLoop s prev curr now alerts)) = 0%nat.
Proof.
  induction alerts as [| [key alert] rest IH]; intro H; simpl; [now split |].
  destruct (checkPriceAlert_quiet s prev curr now alert k id) as [Hn He].
  { intros Hk Hid. apply (H Hk key alert); [now left | exact Hid]. }
  destruct IH as [IHn IHe].
  { intros Hk key' a Hin. apply (H Hk key' a). now right. }
  destruct (checkPriceAlert s prev curr now alert) as [alert' fx].
  destruct (checkPriceAlertsLoop s prev curr now rest) as [rest' fx'].
  simpl in *. rewrite notifications_app, events_app. lia.
Qed.

(** With every alert under its own id and no id twice, the loop sends one
    notification and one event for an alert when its body fires it, and
    none otherwise. *)
Lemma checkPriceAlertsLoop_count (s : LoanStore) (prev curr : Q) (now : Z)
    (alerts : JsMap.t PriceAlert.t) (id : string) (alert : PriceAlert.t) :
  JsMap.wf alerts ->
  (forall k a, In (k, a) alerts -> PriceAlert.alert_id a = k) ->
  In (id, alert) alerts ->
  let fx := snd (checkPriceAlertsLoop s prev curr now alerts) in
  notifications PriceKind id fx = (if priceFires s prev curr alert then 1 else 0)%nat /\
  events PriceKind id fx = (if priceFires s prev curr alert then 1 else 0)%nat.
Proof.
  unfold JsMap.wf, JsMap.keys.
  induction alerts as [| [key a0] rest IH]; intros Hwf Hid Hin; [destruct Hin |].
  simpl in Hwf. inversion Hwf as [| ? ? Hnotin Hwf']; subst.
  simpl.
  destruct Hin as [Heq | Hin].
  - inversion Heq; subst key a0.
    assert (Hida : PriceAlert.alert_id alert = id) by (apply Hid; now left).
    destruct (checkPriceAlertsLoop_quiet s prev curr now PriceKind id rest)
      as [Hn He].
    { intros _ k a Hka Hida'. exfalso. apply Hnotin.
      assert (k = id) by (rewrite <- Hida'; symmetry; apply Hid; now right).
      subst k. change id with (fst (id, a)). now apply in_map. }
    pose proof (checkPriceAlert_fires s prev curr now alert) as Hf.
    simpl in Hf. rewrite Hida in Hf.
    destruct (checkPriceAlert s prev curr now alert) as [alert' fx].
    destruct (checkPriceAlertsLoop s prev curr now rest) as [rest' fx'].
    simpl in *. rewrite notifications_app, events_app, Hn, He.
    destruct (priceFires s prev curr alert).
    + destruct Hf as (_ & -> & ->). split; reflexivity.
    + destruct Hf as (_ & ->). split; reflexivity.
  - destruct (checkPriceAlert_quiet s prev curr now a0 PriceKind id) as [Hn He].
    { intros _ Hida. exfalso. apply Hnotin.
      assert (key = id) by (rewrite <- Hida; symmetry; apply Hid; now left).
      subst key. change id with (fst (id, alert)). now apply in_map. }
    destruct (IH Hwf') as [IHn IHe]; [| exact Hin |].
    { intros k a Hka. apply Hid. now right. }
    destruct (checkPriceAlert s prev curr now a0) as [alert' fx].
    destruct (checkPriceAlertsLoop s prev curr now rest) as [rest' fx'].
    simpl in *. rewrite notifications_app, events_app, Hn, He. auto.
Qed.

(** *** The LTV loop *)

Lemma checkLtvAlert_quiet (s : LoanStore) (prevLtvs : JsMap.t Q) (curr : Q)
    (now : Z) (alert : LtvAlert.t) (k : AlertKind) (id : string) :
  (k = LtvKind -> LtvAlert.alert_id alert = id ->
   LtvAlert.triggered alert = true) ->
  notifications k id (snd (checkLtvAlert s prevLtvs curr now alert)) = 0%nat /\
  events k id (snd (checkLtvAlert s prevLtvs curr now alert)) = 0%nat.
Proof.
  intro H. unfold checkLtvAlert.
  destruct (LtvAlert.triggered alert) eqn:Et; [now split |].
  destruct (getLoan s (LtvAlert.token alert)) as [loan |]; [| now split].
  destruct (Qleb (btc_collateral loan * curr) 0); [now split |].
  match goal with
  | |- context [if ?b then _ else _] => destruct b; [| now split]
  end.
  unfold notifications, events. simpl.
  destruct k; simpl; [now split |].
  destruct (String.eqb (LtvAlert.alert_id alert) id) eqn:E; [| now split].
  apply String.eqb_eq in E. specialize (H eq_refl E). discriminate.
Qed.

Lemma checkLtvAlert_keeps (s : LoanStore) (prevLtvs : JsMap.t Q) (curr : Q)
    (now : Z) (alert : LtvAlert.t) :
  let alert' := fst (checkLtvAlert s prevLtvs curr now alert) in
  LtvAlert.alert_id alert' = LtvAlert.alert_id alert /\
  (LtvAlert.triggered alert = true -> alert' = alert).
Proof.
  unfold checkLtvAlert.
  destruct (LtvAlert.triggered alert); [simpl; auto |].
  destruct (getLoan s (LtvAlert.token alert)) as [loan |];
    [| simpl; split; auto; discriminate].
  destruct (Qleb (btc_collateral loan * curr) 0);
    [simpl; split; auto; discriminate |].
  match goal with
  | |- context [if ?b then _ else _] => destruct b
  end; simpl; split; auto; discriminate.
Qed.

Lemma checkLtvAlertsLoop_map (s : LoanStore) (prevLtvs : JsMap.t Q) (curr : Q)
    (now : Z) (alerts : JsMap.t LtvAlert.t) :
  fst (checkLtvAlertsLoop s prevLtvs curr now alerts)
  = map (fun kv => (fst kv, fst (checkLtvAlert s prevLtvs curr now (snd kv)))) alerts.
Proof.
  induction alerts as [| [id alert] rest IH]; simpl; [reflexivity |].
  destruct (checkLtvAlert s prevLtvs curr now alert) as [alert' fx].
  destruct (checkLtvAlertsLoop s prevLtvs curr now rest) as [rest' fx'].
  simpl in *. now rewrite IH.
Qed.

Lemma checkLtvAlertsLoop_quiet (s : LoanStore) (prevLtvs : JsMap.t Q) (curr : Q)
    (now : Z) (k : AlertKind) (id : string) (alerts : JsMap.t LtvAlert.t) :
  (k = LtvKind ->
   forall key a, In (key, a) alerts -> LtvAlert.alert_id a = id ->
                 LtvAlert.triggered a = true) ->
  notifications k id (snd (checkLtvAlertsLoop s prevLtvs curr now alerts)) = 0%nat /\
  events k id (snd (checkLtvAlertsLoop s prevLtvs curr now alerts)) = 0%nat.
Proof.
  induction alerts as [| [key alert] rest IH]; intro H; simpl; [now split |].
  destruct (checkLtvAlert_quiet s prevLtvs curr now alert k id) as [Hn He].
  { intros Hk Hid. apply (H Hk key alert); [now left | exact Hid]. }
  destruct IH as [IHn IHe].
  { intros Hk key' a Hin. apply (H Hk key' a). now right. }
  destruct (checkLtvAlert s prevLtvs curr now alert) as [alert' fx].
  destruct (checkLtvAlertsLoop s prevLtvs curr now rest) as [rest' fx'].
  simpl in *. rewrite notifications_app, events_app. lia.
Qed.

(** *** Maps *)

Lemma get_In {V : Type} (k : string) (v : V) (m : JsMap.t V) :
  JsMap.get k m = Some v -> In (k, v) m.
Proof.
  induction m as [| [k' v'] rest IH]; simpl; [discriminate |].
  destruct (String.eqb k k') eqn:E.
  - apply String.eqb_eq in E. subst. intro H. inversion H. now left.
  - intro H. right. now apply IH.
Qed.

Lemma In_get {V : Type} (k : string) (v : V) (m : JsMap.t V) :
  JsMap.wf m -> In (k, v) m -> JsMap.get k m = Some v.
Proof.
  unfold JsMap.wf, JsMap.keys.
  induction m as [| [k' v'] rest IH]; simpl; intros Hwf Hin; [destruct Hin |].
  inversion Hwf as [| ? ? Hnotin Hwf']; subst.
  destruct Hin as [Heq | Hin].
  - inversion Heq; subst. now rewrite String.eqb_refl.
  - destruct (String.eqb k k') eqn:E.
    + apply String.eqb_eq in E. subst. exfalso. apply Hnotin.
      change k' with (fst (k', v)). now apply in_map.
    + now apply IH.
Qed.

Lemma get_map_values {V : Type} (f : V -> V) (k : string) (m : JsMap.t V) :
  JsMap.get k (map (fun kv => (fst kv, f (snd kv))) m)
  = option_map f (JsMap.get k m).
Proof.
  induction m as [| [k' v'] rest IH]; simpl; [reflexivity |].
  now destruct (String.eqb k k').
Qed.

Lemma keys_map_values {V : Type} (g : string * V -> V) (m : JsMap.t V) :
  JsMap.keys (map (fun kv => (fst kv, g kv)) m) = JsMap.keys m.
Proof.
  unfold JsMap.keys. rewrite map_map. reflexivity.
Qed.

(** *** The store invariant *)

Lemma wfStore_create : wfStore Store.create.
Proof.
  unfold wfStore, JsMap.wf. simpl. repeat split; try constructor; intros k a [].
Qed.

Lemma wfStore_createLoan (s : LoanStore) (loan : SelfServiceLoan) :
  wfStore s -> wfStore (createLoan s loan).
Proof. intro H. exact H. Qed.

Lemma wfStore_createPriceAlert (s : LoanStore) (id : string) (now : Z)
    (tok : string) (thr : Q) (dir : Direction) :
  wfStore s -> wfStore (createPriceAlert s id now tok thr dir).
Proof.
  intros (Hp & Hl & Hpid & Hlid). unfold wfStore, createPriceAlert. simpl.
  split; [now apply wf_set |]. split; [exact Hl |]. split; [| exact Hlid].
  intros k a Hin. apply In_set in Hin.
  destruct Hin as [[-> ->] | Hin]; [reflexivity | now apply Hpid].
Qed.

Lemma wfStore_createLtvAlert (s : LoanStore) (id : string) (now : Z)
    (tok : string) (thr : Q) (dir : Direction) :
  wfStore s -> wfStore (createLtvAlert s id now tok thr dir).
Proof.
  intros (Hp & Hl & Hpid & Hlid). unfold wfStore, createLtvAlert. simpl.
  split; [exact Hp |]. split; [now apply wf_set |]. split; [exact Hpid |].
  intros k a Hin. apply In_set in Hin.
  destruct Hin as [[-> ->] | Hin]; [reflexivity | now apply Hlid].
Qed.

(** *** One update *)

Lemma onPriceUpdate_unfold (e : AlertEngine) (u : PriceUpdate) (now : Z) :
  onPriceUpdate e u now
  = let s0 := setLastPrice (store e) u in
    let r1 := checkPriceAlertsLoop s0 (previousPrice e) (price u) now
                (priceAlerts (store e)) in
    let s1 := with_priceAlerts s0 (fst r1) in
    let r2 := checkLtvAlertsLoop s1 (previousLtvs e) (price u) now
                (ltvAlerts (store e)) in
    let s2 := with_ltvAlerts s1 (fst r2) in
    (mkEngine s2 (price u)
       (refreshPreviousLtvs (price u) (getAllLoans s2) (previousLtvs e)),
     snd r1 ++ snd r2).
Proof.
  unfold onPriceUpdate, checkPriceAlerts, checkLtvAlerts. simpl.
  destruct (checkPriceAlertsLoop (setLastPrice (store e) u) (previousPrice e)
              (price u) now (priceAlerts (store e))) as [al1 fx1].
  simpl.
  destruct (checkLtvAlertsLoop
              (with_priceAlerts (setLastPrice (store e) u) al1)
              (previousLtvs e) (price u) now (ltvAlerts (store e))) as [al2 fx2].
  reflexivity.
Qed.

Lemma onPriceUpdate_wfStore (e : AlertEngine) (u : PriceUpdate) (now : Z) :
  wfStore (store e) ->
  wfStore (store (fst (onPriceUpdate e u now))) /\
  loans (store (fst (onPriceUpdate e u now))) = loans (store e) /\
  previousPrice (fst (onPriceUpdate e u now)) = price u.
Proof.
  intros (Hp & Hl & Hpid & Hlid). rewrite onPriceUpdate_unfold. simpl.
  rewrite checkPriceAlertsLoop_map, checkLtvAlertsLoop_map.
  split; [| split; reflexivity].
  unfold wfStore, JsMap.wf.
  cbn [priceAlerts ltvAlerts with_priceAlerts with_ltvAlerts setLastPrice].
  rewrite !keys_map_values.
  split; [exact Hp |]. split; [exact Hl |]. split.
  - intros k a Hin. apply in_map_iff in Hin.
    destruct Hin as ([k0 a0] & Heq & Hin0). simpl in Heq. inversion Heq; subst.
    destruct (checkPriceAlert_keeps (setLastPrice (store e) u) (previousPrice e)
                (price u) now a0) as (-> & _).
    now apply Hpid.
  - intros k a Hin. apply in_map_iff in Hin.
    destruct Hin as ([k0 a0] & Heq & Hin0). simpl in Heq. inversion Heq; subst.
    match goal with
    | |- LtvAlert.alert_id (fst (checkLtvAlert ?s ?p ?c ?n ?x)) = _ =>
        destruct (checkLtvAlert_keeps s p c n x) as (-> & _)
    end.
    now apply Hlid.
Qed.

Lemma priceFires_armed (s : LoanStore) (prev curr : Q) (alert : PriceAlert.t) :
  PriceAlert.triggered alert = false ->
  getLoan s (PriceAlert.token alert) <> None ->
  priceFires s prev curr alert = priceCrossed prev curr alert.
Proof.
  intros Ht Hl. unfold priceFires. rewrite Ht.
  destruct (getLoan s (PriceAlert.token alert)); [reflexivity | congruence].
Qed.

(** What one update does for a price alert of the store. *)
Lemma onPriceUpdate_price_alert (e : AlertEngine) (u : PriceUpdate) (now : Z)
    (id : string) (alert : PriceAlert.t) :
  wfStore (store e) ->
  In (id, alert) (priceAlerts (store e)) ->
  exists e' fx,
    onPriceUpdate e u now = (e', fx) /\
    wfStore (store e') /\
    loans (store e') = loans (store e) /\
    previousPrice e' = price u /\
    let b := priceFires (store e) (previousPrice e) (price u) alert in
    notifications PriceKind id fx = (if b then 1 else 0)%nat /\
    events PriceKind id fx = (if b then 1 else 0)%nat /\
    In (id, if b then PriceAlert.trigger alert now else alert)
       (priceAlerts (store e')).
Proof.
  intros Hwf Hin.
  destruct (onPriceUpdate_wfStore e u now Hwf) as (Hwf' & Hloans & Hprev).
  destruct (onPriceUpdate e u now) as [e' fx] eqn:Hrun.
  exists e', fx. simpl in Hwf', Hloans, Hprev.
  repeat (split; [assumption || reflexivity |]).
  rewrite onPriceUpdate_unfold in Hrun. simpl in Hrun.
  inversion Hrun as [[He' Hfx]]. clear Hrun.
  destruct Hwf as (Hp & Hl & Hpid & Hlid).
  destruct (checkPriceAlertsLoop_count (setLastPrice (store e) u)
              (previousPrice e) (price u) now (priceAlerts (store e))
              id alert Hp Hpid Hin) as [Hn He].
  change (priceFires (setLastPrice (store e) u))
    with (priceFires (store e)) in Hn, He.
  match goal with
  | |- context [checkLtvAlertsLoop ?s ?p ?c ?n ?l] =>
      destruct (checkLtvAlertsLoop_quiet s p c n PriceKind id l) as [Hn2 He2];
        [discriminate |]
  end.
  rewrite notifications_app, events_app, Hn, He, Hn2, He2, !Nat.add_0_r.
  split; [reflexivity |]. split; [reflexivity |].
  cbn [store priceAlerts with_ltvAlerts with_priceAlerts].
  rewrite checkPriceAlertsLoop_map.
  pose proof (checkPriceAlert_fires (setLastPrice (store e) u)
                (previousPrice e) (price u) now alert) as Hf.
  change (priceFires (setLastPrice (store e) u))
    with (priceFires (store e)) in Hf.
  apply in_map_iff. exists (id, alert). split; [| exact Hin].
  simpl in *.
  destruct (priceFires (store e) (previousPrice e) (price u) alert).
  - destruct Hf as (-> & _). reflexivity.
  - destruct Hf as (-> & _). reflexivity.
Qed.

(** *** Price alerts *)

(** C1, as the code has it.  For a price alert that has not triggered and
    whose loan is in the store, an update fires the alert, with one
    notification, exactly when the crossing rule of its direction holds
    between the engine's previous price and the update's price: for BELOW,
    [prev > 0], [prev >= threshold] and [curr < threshold], or [prev = 0]
    and [curr < threshold]; for ABOVE the mirror image.  An update never
    sends two notifications for the alert.  In particular a BELOW alert at
    60000 that sees 70000, 65000, 58000, 55000 is notified once, on
    58000. *)
Theorem C1_price_alert_fires_on_crossing
    (e : AlertEngine) (u : PriceUpdate) (now : Z)
    (id : string) (alert : PriceAlert.t) :
  wfStore (store e) ->
  In (id, alert) (priceAlerts (store e)) ->
  PriceAlert.triggered alert = false ->
  getLoan (store e) (PriceAlert.token alert) <> None ->
  let fx := snd (onPriceUpdate e u now) in
  let prev := previousPrice e in
  let curr := price u in
  let thr := PriceAlert.threshold alert in
  (PriceAlert.direction alert = BELOW ->
   (fires PriceKind id fx <->
    (0 < prev /\ thr <= prev /\ curr < thr) \/ (prev == 0 /\ curr < thr))) /\
  (PriceAlert.direction alert = ABOVE ->
   (fires PriceKind id fx <->
    (0 < prev /\ prev <= thr /\ thr < curr) \/ (prev == 0 /\ thr < curr))) /\
  (notifications PriceKind id fx <= 1)%nat /\
  (PriceAlert.direction alert = BELOW -> thr == 60000 ->
   forall u1 n1 u2 n2 u3 n3 u4 n4,
     price u1 == 70000 -> price u2 == 65000 ->
     price u3 == 58000 -> price u4 == 55000 ->
     map (notifications PriceKind id)
         (snd (deliver e [(u1, n1); (u2, n2); (u3, n3); (u4, n4)]))
     = [0; 0; 1; 0]%nat).
Proof.
  intros Hwf Hin Harmed Hloan fx prev curr thr.
  assert (Hcount : notifications PriceKind id fx
                   = (if priceCrossed prev curr alert then 1 else 0)%nat).
  { destruct (onPriceUpdate_price_alert e u now id alert Hwf Hin)
      as (e' & fx' & Hrun & _ & _ & _ & Hrest).
    cbv zeta in Hrest. destruct Hrest as (Hn & _).
    rewrite priceFires_armed in Hn by assumption.
    subst fx. now rewrite Hrun. }
  pose proof (priceCrossed_rule prev curr alert) as Hrule.
  unfold fires. rewrite Hcount. split; [| split; [| split]].
  - intro Hdir. rewrite Hdir in Hrule. simpl in Hrule.
    unfold belowRule in Hrule. fold thr in Hrule. rewrite <- Hrule.
    destruct (priceCrossed prev curr alert); split; auto; discriminate.
  - intro Hdir. rewrite Hdir in Hrule. simpl in Hrule.
    unfold aboveRule in Hrule. fold thr in Hrule. rewrite <- Hrule.
    destruct (priceCrossed prev curr alert); split; auto; discriminate.
  - destruct (priceCrossed prev curr alert); lia.
  - intros Hdir Hthr u1 n1 u2 n2 u3 n3 u4 n4 Hp1 Hp2 Hp3 Hp4. subst thr.
    (* 70000 *)
    destruct (onPriceUpdate_price_alert e u1 n1 id alert Hwf Hin)
      as (e1 & fx1 & Hrun1 & Hwf1 & Hl1 & Hprev1 & Hrest).
    cbv zeta in Hrest. destruct Hrest as (Hn1 & _ & Hin1).
    rewrite priceFires_armed in Hn1, Hin1 by assumption.
    assert (E1 : priceCrossed (previousPrice e) (price u1) alert = false).
    { apply not_true_is_false. intro H. apply priceCrossed_rule in H.
      rewrite Hdir in H. unfold crossingRule, belowRule in H. lra. }
    rewrite E1 in Hn1, Hin1.
    assert (Hloan1 : getLoan (store e1) (PriceAlert.token alert) <> None)
      by (unfold getLoan in *; now rewrite Hl1).
    (* 65000 *)
    destruct (onPriceUpdate_price_alert e1 u2 n2 id alert Hwf1 Hin1)
      as (e2 & fx2 & Hrun2 & Hwf2 & Hl2 & Hprev2 & Hrest).
    cbv zeta in Hrest. destruct Hrest as (Hn2 & _ & Hin2).
    rewrite priceFires_armed in Hn2, Hin2 by assumption.
    assert (E2 : priceCrossed (previousPrice e1) (price u2) alert = false).
    { apply not_true_is_false. intro H. apply priceCrossed_rule in H.
      rewrite Hdir in H. unfold crossingRule, belowRule in H. lra. }
    rewrite E2 in Hn2, Hin2.
    assert (Hloan2 : getLoan (store e2) (PriceAlert.token alert) <> None)
      by (unfold getLoan in *; now rewrite Hl2).
    (* 58000 *)
    destruct (onPriceUpdate_price_alert e2 u3 n3 id alert Hwf2 Hin2)
      as (e3 & fx3 & Hrun3 & Hwf3 & Hl3 & Hprev3 & Hrest).
    cbv zeta in Hrest. destruct Hrest as (Hn3 & _ & Hin3).
    rewrite priceFires_armed in Hn3, Hin3 by assumption.
    assert (E3 : priceCrossed (previousPrice e2) (price u3) alert = true).
    { apply priceCrossed_rule. rewrite Hdir.
      unfold crossingRule, belowRule. rewrite Hprev2. left. lra. }
    rewrite E3 in Hn3, Hin3.
    (* 55000 *)
    destruct (onPriceUpdate_price_alert e3 u4 n4 id
                (PriceAlert.trigger alert n3) Hwf3 Hin3)
      as (e4 & fx4 & Hrun4 & _ & _ & _ & Hrest).
    cbv zeta in Hrest. destruct Hrest as (Hn4 & _).
    change (priceFires (store e3) (previousPrice e3) (price u4)
              (PriceAlert.trigger alert n3)) with false in Hn4.
    cbn [deliver]. rewrite Hrun1, Hrun2, Hrun3, Hrun4. simpl.
    now rewrite Hn1, Hn2, Hn3, Hn4.
Qed.

Lemma wfStore_storeS2 : wfStore storeS2.
Proof.
  unfold wfStore, JsMap.wf. simpl. repeat split.
  - repeat constructor. intros [].
  - constructor.
  - intros k a [H | []]. now inversion H.
  - intros k a [].
Defined.

Lemma C1_price_alert_witness :
  fires PriceKind "a1" (snd (onPriceUpdate engineS2 (testUpdate 58000 1) 1))
  <-> (0 < 0 /\ 60000 <= 0 /\ 58000 < 60000) \/ (0 == 0 /\ 58000 < 60000).
Proof.
  apply (proj1 (C1_price_alert_fires_on_crossing engineS2
                  (testUpdate 58000 1) 1 "a1"
                  (PriceAlert.mk "a1" "tok" 60000 BELOW false 0 None)
                  wfStore_storeS2
                  ltac:(left; reflexivity) ltac:(reflexivity)
                  ltac:(discriminate))).
  reflexivity.
Defined.

(** C1 as stated fails for an alert that has triggered and for an alert
    whose loan is not in the store: the rule for BELOW holds between the
    previous price and the update's price, and no notification is sent. *)
Lemma C1_guarded_alerts_do_not_fire :
  (In ("a1"%string, PriceAlert.mk "a1" "tok" 60000 BELOW true 0 (Some 2%Z))
      (priceAlerts (store engineS2_fired)) /\
   previousPrice engineS2_fired == 65000 /\
   belowRule (previousPrice engineS2_fired) 58000 60000 /\
   notifications PriceKind "a1"
     (snd (onPriceUpdate engineS2_fired (testUpdate 58000 4) 4)) = 0%nat)
  /\
  (In ("a2"%string, PriceAlert.mk "a2" "gone" 60000 BELOW false 0 None)
      (priceAlerts (store engineOrphan)) /\
   previousPrice engineOrphan == 0 /\
   belowRule (previousPrice engineOrphan) 58000 60000 /\
   notifications PriceKind "a2"
     (snd (onPriceUpdate engineOrphan (testUpdate 58000 1) 1)) = 0%nat).
Proof.
  split; (split; [left; reflexivity |]); (split; [reflexivity |]);
    (split; [| reflexivity]).
  - left. split; [reflexivity | split; [vm_compute; discriminate | reflexivity]].
  - right. split; reflexivity.
Qed.

(** *** Triggered alerts *)

Lemma onPriceUpdate_triggered_quiet (e : AlertEngine) (u : PriceUpdate) (now : Z)
    (k : AlertKind) (id : string) :
  wfStore (store e) ->
  triggeredFlag (store e) k id = Some true ->
  notifications k id (snd (onPriceUpdate e u now)) = 0%nat /\
  events k id (snd (onPriceUpdate e u now)) = 0%nat /\
  triggeredFlag (store (fst (onPriceUpdate e u now))) k id = Some true.
Proof.
  intros (Hp & Hl & Hpid & Hlid) Hflag.
  rewrite onPriceUpdate_unfold. cbv zeta.
  cbn [fst snd store].
  set (s0 := setLastPrice (store e) u).
  set (f1 := fun a => fst (checkPriceAlert s0 (previousPrice e) (price u) now a)).
  assert (Hmap1 : fst (checkPriceAlertsLoop s0 (previousPrice e) (price u) now
                         (priceAlerts (store e)))
                  = map (fun kv => (fst kv, f1 (snd kv))) (priceAlerts (store e)))
    by apply checkPriceAlertsLoop_map.
  rewrite Hmap1.
  set (s1 := with_priceAlerts s0
               (map (fun kv => (fst kv, f1 (snd kv))) (priceAlerts (store e)))).
  set (f2 := fun a => fst (checkLtvAlert s1 (previousLtvs e) (price u) now a)).
  assert (Hmap2 : fst (checkLtvAlertsLoop s1 (previousLtvs e) (price u) now
                         (ltvAlerts (store e)))
                  = map (fun kv => (fst kv, f2 (snd kv))) (ltvAlerts (store e)))
    by apply checkLtvAlertsLoop_map.
  rewrite Hmap2.
  destruct (checkPriceAlertsLoop_quiet s0 (previousPrice e) (price u) now k id
              (priceAlerts (store e))) as [Hn1 He1].
  { intros -> key a Hin Hid. simpl in Hflag. unfold getPriceAlert in Hflag.
    assert (key = id) by (rewrite <- Hid; symmetry; now apply Hpid). subst key.
    rewrite (In_get id a _ Hp Hin) in Hflag. simpl in Hflag. congruence. }
  destruct (checkLtvAlertsLoop_quiet s1 (previousLtvs e) (price u) now k id
              (ltvAlerts (store e))) as [Hn2 He2].
  { intros -> key a Hin Hid. simpl in Hflag. unfold getLtvAlert in Hflag.
    assert (key = id) by (rewrite <- Hid; symmetry; now apply Hlid). subst key.
    rewrite (In_get id a _ Hl Hin) in Hflag. simpl in Hflag. congruence. }
  rewrite notifications_app, events_app, Hn1, He1, Hn2, He2.
  split; [reflexivity |]. split; [reflexivity |].
  destruct k; simpl in *.
  - unfold getPriceAlert in *. simpl. rewrite (get_map_values f1).
    destruct (JsMap.get id (priceAlerts (store e))) as [a |]; [| discriminate].
    simpl in *. inversion Hflag as [Ht]. unfold f1.
    destruct (checkPriceAlert_keeps s0 (previousPrice e) (price u) now a)
      as (_ & _ & _ & _ & Hsame).
    rewrite (Hsame Ht). now rewrite Ht.
  - unfold getLtvAlert in *. simpl. rewrite (get_map_values f2).
    destruct (JsMap.get id (ltvAlerts (store e))) as [a |]; [| discriminate].
    simpl in *. inversion Hflag as [Ht]. unfold f2.
    destruct (checkLtvAlert_keeps s1 (previousLtvs e) (price u) now a)
      as (_ & Hsame).
    rewrite (Hsame Ht). now rewrite Ht.
Qed.

(** C2.  Once the flag of an alert, price or LTV, is true, no run of price
    updates sends a notification or an [ALERT_TRIGGERED] event for it, and
    the flag is still true after the run. *)
Theorem C2_triggered_alert_is_terminal
    (updates : list (PriceUpdate * Z)) (e : AlertEngine)
    (k : AlertKind) (id : string) :
  wfStore (store e) ->
  triggeredFlag (store e) k id = Some true ->
  Forall (fun fx => notifications k id fx = 0%nat /\ events k id fx = 0%nat)
         (snd (deliver e updates)) /\
  triggeredFlag (store (fst (deliver e updates))) k id = Some true.
Proof.
  revert e. induction updates as [| [u now] rest IH]; intros e Hwf Hflag.
  - simpl. split; [constructor | exact Hflag].
  - destruct (onPriceUpdate_triggered_quiet e u now k id Hwf Hflag)
      as (Hn & He & Hflag').
    destruct (onPriceUpdate_wfStore e u now Hwf) as (Hwf' & _).
    cbn [deliver].
    destruct (onPriceUpdate e u now) as [e1 fx] eqn:Hrun. simpl in *.
    destruct (IH e1 Hwf' Hflag') as [Hall Hend].
    destruct (deliver e1 rest) as [e2 fxs]. simpl in *.
    split; [constructor; auto | exact Hend].
Qed.

Lemma wfStore_engineS2_fired : wfStore (store engineS2_fired).
Proof.
  unfold wfStore, JsMap.wf. vm_compute. repeat split.
  - repeat constructor. intros [].
  - constructor.
  - intros k a [H | []]. now inversion H.
  - intros k a [].
Defined.

Lemma C2_triggered_alert_witness :
  let run := deliver engineS2_fired
               [ (testUpdate 58000 4, 4%Z); (testUpdate 65000 5, 5%Z);
                 (testUpdate 50000 6, 6%Z) ] in
  Forall (fun fx => notifications PriceKind "a1" fx = 0%nat /\
                    events PriceKind "a1" fx = 0%nat) (snd run) /\
  triggeredFlag (store (fst run)) PriceKind "a1" = Some true.
Proof.
  intro run.
  apply (C2_triggered_alert_is_terminal _ engineS2_fired PriceKind "a1"
           wfStore_engineS2_fired ltac:(reflexivity)).
Defined.

(** *** The runs of the test suite *)

Example price_crossing_below_S2 :
  map (notifications PriceKind "a1")
      (snd (deliver engineS2
              [ (testUpdate 70000 1, 1%Z); (testUpdate 65000 2, 2%Z);
                (testUpdate 58000 3, 3%Z); (testUpdate 55000 4, 4%Z) ]))
  = [0; 0; 1; 0]%nat.
Proof. reflexivity. Qed.

Example price_crossing_above_S3 :
  let fxs := snd (deliver engineS3
                    [ (testUpdate 75000 6, 6%Z); (testUpdate 82000 7, 7%Z) ]) in
  map (notifications PriceKind "a3") fxs = [0; 1]%nat /\
  map (notifications PriceKind "a1") fxs = [0; 0]%nat.
Proof. split; reflexivity. Qed.

Example ltv_crossing_S4 :
  map (notifications LtvKind "l1")
      (snd (deliver engineS4
              [ (testUpdate 100000 1, 1%Z); (testUpdate 80000 2, 2%Z);
                (testUpdate 65000 3, 3%Z); (testUpdate 60000 4, 4%Z) ]))
  = [0; 0; 1; 0]%nat.
Proof. reflexivity. Qed.

End AlertsFacts.

(* ================================================================= *)
(** ** More on the price aggregator *)

Module AggregatorMore.
Import Num NumFacts Types Aggregator Spec Terms AggregatorFacts AlertsFacts.
Local Open Scope Q_scope.

(** [computeUpdate] touches neither the ticks nor the configuration. *)
Lemma computeUpdate_frame (a : PriceAggregator) (now nowTwap : Z) :
  sourcePrices (snd (computeUpdate a now nowTwap)) = sourcePrices a /\
  config (snd (computeUpdate a now nowTwap)) = config a.
Proof.
  destruct (computeUpdate_cases a now nowTwap)
    as [[_ Hc] | [(_ & _ & u & a' & Hc & _ & _ & Ha') |
                  (_ & _ & u & a' & Hc & _ & _ & Ha')]];
    rewrite Hc; simpl; [now split | |]; subst a';
    match goal with
    | |- context [addSample ?x ?s] =>
        destruct (addSample_fields x s) as (_ & _ & _ & -> & ->)
    end.
  - now destruct (circuitBreakerActive a).
  - simpl. now destruct (Qltb 0 (lastKnownGoodPrice a)).
Qed.

Lemma reachable_wf (a : PriceAggregator) :
  reachable a -> JsMap.wf (sourcePrices a).
Proof.
  induction 1 as [cfg | a cfg _ IH | a src p ts _ IH | a now nowTwap _ IH].
  - constructor.
  - exact IH.
  - unfold ingestTick. simpl. now apply wf_set.
  - now rewrite (proj1 (computeUpdate_frame a now nowTwap)).
Qed.

Lemma freshNames_filter (a : PriceAggregator) (now : Z) :
  freshNames a now
  = map fst (filter (fun kv => freshb now (snd kv)) (sourcePrices a)).
Proof. unfold freshNames, freshSet. now rewrite map_map. Qed.

Lemma NoDup_keys_filter {V : Type} (f : string * V -> bool) (m : JsMap.t V) :
  NoDup (map fst m) -> NoDup (map fst (filter f m)).
Proof.
  induction m as [| kv rest IH]; simpl; intro H; [constructor |].
  inversion H as [| ? ? Hnotin Hrest]; subst.
  destruct (f kv); simpl; [| now apply IH].
  constructor; [| now apply IH].
  intro Hin. apply Hnotin. apply in_map_iff in Hin.
  destruct Hin as (x & Hx & Hin). apply filter_In in Hin.
  apply in_map_iff. exists x. tauto.
Qed.

(** X1.  Every update an aggregator returns names at least one source, no
    source twice, and names exactly the sources whose stored tick is
    younger than 30 000 ms. *)
Theorem X1_sources_nonempty_distinct
    (a a' : PriceAggregator) (now nowTwap : Z) (u : PriceUpdate) :
  reachable a ->
  computeUpdate a now nowTwap = (Some u, a') ->
  sources u <> [] /\
  NoDup (sources u) /\
  (forall name,
     In name (sources u) <->
     exists t, JsMap.get name (sourcePrices a) = Some t /\
               (now - tick_timestamp t < 30000)%Z).
Proof.
  intros Hreach Hc. apply reachable_wf in Hreach.
  apply computeUpdate_price in Hc. destruct Hc as (_ & Hs & _ & _ & Hne).
  rewrite Hs. split; [| split].
  - rewrite <- activeNames_fresh. intro H. apply Hne.
    now apply map_eq_nil in H.
  - rewrite freshNames_filter. now apply NoDup_keys_filter.
  - intro name. rewrite freshNames_filter, in_map_iff. split.
    + intros ([k t] & Hk & Hin). simpl in Hk. subst k.
      apply filter_In in Hin. destruct Hin as [Hin Hf]. simpl in Hf.
      exists t. split; [now apply In_get |].
      unfold freshb in Hf. now apply Z.ltb_lt in Hf.
    + intros (t & Hget & Hf). exists (name, t). split; [reflexivity |].
      apply filter_In. split; [now apply get_In |].
      simpl. unfold freshb. now apply Z.ltb_lt.
Qed.

Lemma X1_sources_witness :
  sources updateS5 <> [] /\
  NoDup (sources updateS5) /\
  (forall name,
     In name (sources updateS5) <->
     exists t, JsMap.get name (sourcePrices stateS5) = Some t /\
               (2000 - tick_timestamp t < 30000)%Z).
Proof.
  apply (X1_sources_nonempty_distinct stateS5
           (snd (computeUpdate stateS5 2000 2000)) 2000 2000 updateS5).
  - unfold stateS5, ingestS5. repeat constructor.
  - exact computeUpdate_stateS5.
Defined.

Lemma countLoop_length (now : Z) (m : JsMap.t SourceTick) :
  forall count,
    countLoop now m count
    = (count + length (filter (fun kv => freshb now (snd kv)) m))%nat.
Proof.
  induction m as [| [k t] rest IH]; intro count; simpl; [lia |].
  rewrite IH. unfold freshb.
  destruct (now - tick_timestamp t <? 30000)%Z; simpl; lia.
Qed.

Lemma getSourceCount_fresh (a : PriceAggregator) (now : Z) :
  getSourceCount a now = length (freshSet a now).
Proof.
  unfold getSourceCount, freshSet. rewrite countLoop_length, length_map.
  reflexivity.
Qed.

(** X2.  At one reading of the clock, [getSourceCount] is the number of
    sources [computeUpdate] puts in its update, before the call and after
    it, and it is zero exactly when [computeUpdate] returns [null]. *)
Theorem X2_getSourceCount_agrees (a : PriceAggregator) (now nowTwap : Z) :
  (fst (computeUpdate a now nowTwap) = None <-> getSourceCount a now = 0%nat) /\
  (forall u,
     fst (computeUpdate a now nowTwap) = Some u ->
     getSourceCount a now = length (sources u) /\
     getSourceCount (snd (computeUpdate a now nowTwap)) now = length (sources u)).
Proof.
  split.
  - rewrite computeUpdate_none_iff, getSourceCount_fresh, <- freshSet_length.
    split; [intros -> | intro H]; [reflexivity |].
    now apply length_zero_iff_nil.
  - intros u Hu.
    destruct (computeUpdate a now nowTwap) as [r a'] eqn:Hc. simpl in Hu.
    subst r.
    pose proof (computeUpdate_frame a now nowTwap) as [Hsp _].
    rewrite Hc in Hsp. simpl in Hsp.
    apply computeUpdate_price in Hc. destruct Hc as (_ & Hs & _).
    assert (E : getSourceCount a now = length (sources u)).
    { rewrite getSourceCount_fresh, Hs. unfold freshNames.
      now rewrite length_map. }
    split; [exact E |]. simpl. unfold getSourceCount in *. now rewrite Hsp.
Qed.



(** X4.  A call of [computeUpdate] that returns [null] changes nothing.
    A call that returns an update leaves the ticks and the configuration
    alone and puts exactly one sample last in the ring, stamped with the
    clock reading and the update's sources and carrying the update's price
    (the last known good price when the update is flagged); the ring then
    holds between 1 and 2000 samples. *)
Theorem X4_one_sample_per_update (a : PriceAggregator) (now nowTwap : Z) :
  (fst (computeUpdate a now nowTwap) = None ->
   snd (computeUpdate a now nowTwap) = a) /\
  (forall u a',
     computeUpdate a now nowTwap = (Some u, a') ->
     sourcePrices a' = sourcePrices a /\
     config a' = config a /\
     (exists k,
        samples a'
        = skipn k (samples a)
          ++ [mkSample (if circuit_breaker u then lastKnownGoodPrice a
                        else price u)
                now (sources u)]) /\
     (1 <= length (samples a') <= 2000)%nat).
Proof.
  split.
  - intro H. apply computeUpdate_none_iff in H.
    unfold computeUpdate. now rewrite H.
  - intros u a' Hc.
    pose proof (computeUpdate_frame a now nowTwap) as [Hsp Hcfg].
    rewrite Hc in Hsp, Hcfg. cbn [snd] in Hsp, Hcfg.
    pose proof (computeUpdate_price a a' now nowTwap u Hc) as (_ & Hs & _).
    split; [exact Hsp |]. split; [exact Hcfg |].
    destruct (computeUpdate_cases a now nowTwap)
      as [[_ Hc'] | [(_ & _ & u1 & a1 & Hc' & Hp & Hcb & Ha') |
                     (_ & _ & u1 & a1 & Hc' & Hp & Hcb & Ha')]];
      rewrite Hc in Hc'; [discriminate | |];
      assert (Eu : u1 = u /\ a1 = a') by (now inversion Hc');
      destruct Eu as [-> ->]; rewrite Hcb, Hs; rewrite Ha'.
    + split; [| apply addSample_bounded].
      match goal with
      | |- context [addSample ?x ?s] =>
          destruct (addSample_samples x s) as (k & ->)
      end.
      exists k. now destruct (circuitBreakerActive a).
    + split; [| apply addSample_bounded]. rewrite Hp.
      match goal with
      | |- context [addSample ?x ?s] =>
          destruct (addSample_samples x s) as (k & ->)
      end.
      exists k. simpl. now destruct (Qltb 0 (lastKnownGoodPrice a)).
Qed.



Lemma X2_getSourceCount_witness :
  getSourceCount stateS5 2000 = length (sources updateS5) /\
  getSourceCount (snd (computeUpdate stateS5 2000 2000)) 2000
  = length (sources updateS5).
Proof.
  apply (proj2 (X2_getSourceCount_agrees stateS5 2000 2000) updateS5).
  reflexivity.
Defined.

Lemma X4_one_sample_witness :
  snd (computeUpdate stateS6_tripped 40000 40000) = stateS6_tripped.
Proof.
  apply (proj1 (X4_one_sample_per_update stateS6_tripped 40000 40000)).
  reflexivity.
Defined.

(** *** The average stays within the prices *)






End AggregatorMore.

(* ================================================================= *)
(** ** More on the alert engine *)

Module AlertsMore.
Import Num NumFacts Types Store Alerts Spec Terms AlertsFacts.
Local Open Scope Q_scope.

(** *** The loops read the loans only *)

Lemma checkPriceAlert_loans (s s' : LoanStore) (prev curr : Q) (now : Z)
    (alert : PriceAlert.t) :
  loans s = loans s' ->
  checkPriceAlert s prev curr now alert = checkPriceAlert s' prev curr now alert.
Proof. intro H. unfold checkPriceAlert, getLoan. now rewrite H. Qed.

Lemma checkPriceAlertsLoop_loans (s s' : LoanStore) (prev curr : Q) (now : Z)
    (alerts : JsMap.t PriceAlert.t) :
  loans s = loans s' ->
  checkPriceAlertsLoop s prev curr now alerts
  = checkPriceAlertsLoop s' prev curr now alerts.
Proof.
  intro H. induction alerts as [| [id alert] rest IH]; simpl; [reflexivity |].
  now rewrite (checkPriceAlert_loans s s' prev curr now alert H), IH.
Qed.

Lemma checkLtvAlert_loans (s s' : LoanStore) (prevLtvs : JsMap.t Q) (curr : Q)
    (now : Z) (alert : LtvAlert.t) :
  loans s = loans s' ->
  checkLtvAlert s prevLtvs curr now alert = checkLtvAlert s' prevLtvs curr now alert.
Proof. intro H. unfold checkLtvAlert, getLoan. now rewrite H. Qed.

Lemma checkLtvAlertsLoop_loans (s s' : LoanStore) (prevLtvs : JsMap.t Q)
    (curr : Q) (now : Z) (alerts : JsMap.t LtvAlert.t) :
  loans s = loans s' ->
  checkLtvAlertsLoop s prevLtvs curr now alerts
  = checkLtvAlertsLoop s' prevLtvs curr now alerts.
Proof.
  intro H. induction alerts as [| [id alert] rest IH]; simpl; [reflexivity |].
  now rewrite (checkLtvAlert_loans s s' prevLtvs curr now alert H), IH.
Qed.

(** One update, with every part read off the engine it starts from. *)
Lemma onPriceUpdate_parts (e : AlertEngine) (u : PriceUpdate) (now : Z) :
  onPriceUpdate e u now
  = let r1 := checkPriceAlertsLoop (store e) (previousPrice e) (price u) now
                (priceAlerts (store e)) in
    let r2 := checkLtvAlertsLoop (store e) (previousLtvs e) (price u) now
                (ltvAlerts (store e)) in
    (mkEngine (mkStore (loans (store e)) (fst r1) (fst r2) (Some u)) (price u)
       (refreshPreviousLtvs (price u) (JsMap.values (loans (store e)))
          (previousLtvs e)),
     snd r1 ++ snd r2).
Proof.
  rewrite onPriceUpdate_unfold. cbv zeta.
  rewrite (checkPriceAlertsLoop_loans (setLastPrice (store e) u) (store e))
    by reflexivity.
  match goal with
  | |- context [checkLtvAlertsLoop ?s1 _ _ _ _] =>
      rewrite (checkLtvAlertsLoop_loans s1 (store e)) by reflexivity
  end.
  reflexivity.
Qed.

(** X11.  The engine reads nothing of an update but its price: two updates
    with the same price, whatever their flag, confidence, sources and
    time-weighted average, send the same notifications and events and
    leave the same alerts, previous price and previous LTVs; only the last
    price kept by the store tells them apart. *)
Theorem X11_only_the_price_matters
    (e : AlertEngine) (u u' : PriceUpdate) (now : Z) :
  price u = price u' ->
  let r := onPriceUpdate e u now in
  let r' := onPriceUpdate e u' now in
  snd r = snd r' /\
  priceAlerts (store (fst r)) = priceAlerts (store (fst r')) /\
  ltvAlerts (store (fst r)) = ltvAlerts (store (fst r')) /\
  loans (store (fst r)) = loans (store (fst r')) /\
  previousPrice (fst r) = previousPrice (fst r') /\
  previousLtvs (fst r) = previousLtvs (fst r') /\
  lastPrice (store (fst r)) = Some u /\
  lastPrice (store (fst r')) = Some u'.
Proof.
  intros Hp r r'. subst r r'. rewrite !onPriceUpdate_parts. cbv zeta.
  rewrite <- Hp. simpl. repeat split; reflexivity.
Qed.

Lemma X11_only_the_price_witness :
  snd (onPriceUpdate engineS2 (testUpdate 58000 1) 1)
  = snd (onPriceUpdate engineS2
           (mkPriceUpdate 58000 1 ["kraken"%string] 60000 LOW true) 1).
Proof.
  apply (proj1 (X11_only_the_price_matters engineS2 (testUpdate 58000 1)
                  (mkPriceUpdate 58000 1 ["kraken"%string] 60000 LOW true) 1
                  ltac:(reflexivity))).
Defined.

(** *** LTV alerts *)


Lemma checkLtvAlert_fires (s : LoanStore) (prevLtvs : JsMap.t Q) (curr : Q)
    (now : Z) (alert : LtvAlert.t) :
  let r := checkLtvAlert s prevLtvs curr now alert in
  let id := LtvAlert.alert_id alert in
  (if ltvFires s prevLtvs curr alert
   then fst r = LtvAlert.trigger alert now /\
        notifications LtvKind id (snd r) = 1%nat /\
        events LtvKind id (snd r) = 1%nat
   else fst r = alert /\ snd r = []).
Proof.
  unfold ltvFires, checkLtvAlert.
  destruct (LtvAlert.triggered alert); simpl; [auto |].
  destruct (getLoan s (LtvAlert.token alert)) as [loan |]; simpl; [| auto].
  destruct (Qleb (btc_collateral loan * curr) 0); simpl; [auto |].
  match goal with
  | |- context [ltvCrossed ?p ?c alert] => destruct (ltvCrossed p c alert)
  end; simpl; [| auto].
  unfold notifications, events. simpl. rewrite String.eqb_refl. simpl. auto.
Qed.

Lemma checkLtvAlertsLoop_count (s : LoanStore) (prevLtvs : JsMap.t Q) (curr : Q)
    (now : Z) (alerts : JsMap.t LtvAlert.t) (id : string) (alert : LtvAlert.t) :
  JsMap.wf alerts ->
  (forall k a, In (k, a) alerts -> LtvAlert.alert_id a = k) ->
  In (id, alert) alerts ->
  let fx := snd (checkLtvAlertsLoop s prevLtvs curr now alerts) in
  notifications LtvKind id fx
  = (if ltvFires s prevLtvs curr alert then 1 else 0)%nat /\
  events LtvKind id fx
  = (if ltvFires s prevLtvs curr alert then 1 else 0)%nat.
Proof.
  unfold JsMap.wf, JsMap.keys.
  induction alerts as [| [key a0] rest IH]; intros Hwf Hid Hin; [destruct Hin |].
  simpl in Hwf. inversion Hwf as [| ? ? Hnotin Hwf']; subst.
  simpl.
  destruct Hin as [Heq | Hin].
  - inversion Heq; subst key a0.
    assert (Hida : LtvAlert.alert_id alert = id) by (apply Hid; now left).
    destruct (checkLtvAlertsLoop_quiet s prevLtvs curr now LtvKind id rest)
      as [Hn He].
    { intros _ k a Hka Hida'. exfalso. apply Hnotin.
      assert (k = id) by (rewrite <- Hida'; symmetry; apply Hid; now right).
      subst k. change id with (fst (id, a)). now apply in_map. }
    pose proof (checkLtvAlert_fires s prevLtvs curr now alert) as Hf.
    simpl in Hf. rewrite Hida in Hf.
    destruct (checkLtvAlert s prevLtvs curr now alert) as [alert' fx].
    destruct (checkLtvAlertsLoop s prevLtvs curr now rest) as [rest' fx'].
    simpl in *. rewrite notifications_app, events_app, Hn, He.
    destruct (ltvFires s prevLtvs curr alert).
    + destruct Hf as (_ & -> & ->). split; reflexivity.
    + destruct Hf as (_ & ->). split; reflexivity.
  - destruct (checkLtvAlert_quiet s prevLtvs curr now a0 LtvKind id) as [Hn He].
    { intros _ Hida. exfalso. apply Hnotin.
      assert (key = id) by (rewrite <- Hida; symmetry; apply Hid; now left).
      subst key. change id with (fst (id, alert)). now apply in_map. }
    destruct (IH Hwf') as [IHn IHe]; [| exact Hin |].
    { intros k a Hka. apply Hid. now right. }
    destruct (checkLtvAlert s prevLtvs curr now a0) as [alert' fx].
    destruct (checkLtvAlertsLoop s prevLtvs curr now rest) as [rest' fx'].
    simpl in *. rewrite notifications_app, events_app, Hn, He. auto.
Qed.

(** What one update does for an LTV alert of the store. *)
Lemma onPriceUpdate_ltv_alert (e : AlertEngine) (u : PriceUpdate) (now : Z)
    (id : string) (alert : LtvAlert.t) :
  wfStore (store e) ->
  In (id, alert) (ltvAlerts (store e)) ->
  exists e' fx,
    onPriceUpdate e u now = (e', fx) /\
    notifications LtvKind id fx
    = (if ltvFires (store e) (previousLtvs e) (price u) alert then 1 else 0)%nat /\
    events LtvKind id fx
    = (if ltvFires (store e) (previousLtvs e) (price u) alert then 1 else 0)%nat /\
    In (id, if ltvFires (store e) (previousLtvs e) (price u) alert
            then LtvAlert.trigger alert now else alert)
       (ltvAlerts (store e')).
Proof.
  intros (Hp & Hl & Hpid & Hlid) Hin.
  rewrite onPriceUpdate_parts. cbv zeta. eexists; eexists.
  split; [reflexivity |].
  destruct (checkLtvAlertsLoop_count (store e) (previousLtvs e) (price u) now
              (ltvAlerts (store e)) id alert Hl Hlid Hin) as [Hn He].
  destruct (checkPriceAlertsLoop_quiet (store e) (previousPrice e) (price u) now
              LtvKind id (priceAlerts (store e))) as [Hn1 He1];
    [discriminate |].
  rewrite notifications_app, events_app, Hn, He, Hn1, He1.
  split; [reflexivity |]. split; [reflexivity |].
  cbn [store ltvAlerts]. rewrite checkLtvAlertsLoop_map.
  pose proof (checkLtvAlert_fires (store e) (previousLtvs e) (price u) now alert)
    as Hf.
  apply in_map_iff. exists (id, alert). split; [| exact Hin].
  simpl in *.
  destruct (ltvFires (store e) (previousLtvs e) (price u) alert).
  - destruct Hf as (-> & _). reflexivity.
  - destruct Hf as (-> & _). reflexivity.
Qed.




(** *** Flags and notifications *)

(** Every alert that the loop body fires sends one notification and one
    event under the same kind and id. *)
Lemma checkPriceAlertsLoop_paired (s : LoanStore) (prev curr : Q) (now : Z)
    (k : AlertKind) (id : string) (alerts : JsMap.t PriceAlert.t) :
  notifications k id (snd (checkPriceAlertsLoop s prev curr now alerts))
  = events k id (snd (checkPriceAlertsLoop s prev curr now alerts)).
Proof.
  induction alerts as [| [key alert] rest IH]; simpl; [reflexivity |].
  assert (H1 : notifications k id (snd (checkPriceAlert s prev curr now alert))
               = events k id (snd (checkPriceAlert s prev curr now alert))).
  { unfold checkPriceAlert.
    destruct (PriceAlert.triggered alert); [reflexivity |].
    destruct (getLoan s (PriceAlert.token alert)); [| reflexivity].
    destruct (priceCrossed prev curr alert); [| reflexivity].
    unfold notifications, events. simpl.
    destruct k; simpl; [| reflexivity].
    destruct (String.eqb (PriceAlert.alert_id alert) id); reflexivity. }
  destruct (checkPriceAlert s prev curr now alert) as [alert' fx].
  destruct (checkPriceAlertsLoop s prev curr now rest) as [rest' fx'].
  simpl in *. rewrite notifications_app, events_app. lia.
Qed.

Lemma checkLtvAlertsLoop_paired (s : LoanStore) (prevLtvs : JsMap.t Q) (curr : Q)
    (now : Z) (k : AlertKind) (id : string) (alerts : JsMap.t LtvAlert.t) :
  notifications k id (snd (checkLtvAlertsLoop s prevLtvs curr now alerts))
  = events k id (snd (checkLtvAlertsLoop s prevLtvs curr now alerts)).
Proof.
  induction alerts as [| [key alert] rest IH]; simpl; [reflexivity |].
  assert (H1 : notifications k id (snd (checkLtvAlert s prevLtvs curr now alert))
               = events k id (snd (checkLtvAlert s prevLtvs curr now alert))).
  { unfold checkLtvAlert.
    destruct (LtvAlert.triggered alert); [reflexivity |].
    destruct (getLoan s (LtvAlert.token alert)) as [loan |]; [| reflexivity].
    destruct (Qleb (btc_collateral loan * curr) 0); [reflexivity |].
    match goal with
    | |- context [if ?b then _ else _] => destruct b; [| reflexivity]
    end.
    unfold notifications, events. simpl.
    destruct k; simpl; [reflexivity |].
    destruct (String.eqb (LtvAlert.alert_id alert) id); reflexivity. }
  destruct (checkLtvAlert s prevLtvs curr now alert) as [alert' fx].
  destruct (checkLtvAlertsLoop s prevLtvs curr now rest) as [rest' fx'].
  simpl in *. rewrite notifications_app, events_app. lia.
Qed.

(** The flag of an alert across one update, by what it was before. *)
Lemma onPriceUpdate_flag_cases (e : AlertEngine) (u : PriceUpdate) (now : Z)
    (k : AlertKind) (id : string) :
  wfStore (store e) ->
  let n := notifications k id (snd (onPriceUpdate e u now)) in
  let flag' := triggeredFlag (store (fst (onPriceUpdate e u now))) k id in
  match triggeredFlag (store e) k id with
  | None => n = 0%nat /\ flag' = None
  | Some true => n = 0%nat /\ flag' = Some true
  | Some false =>
      (n = 1%nat /\ flag' = Some true) \/ (n = 0%nat /\ flag' = Some false)
  end.
Proof.
  intros Hwf n flag'.
  destruct (triggeredFlag (store e) k id) as [[|] |] eqn:Hflag.
  - destruct (onPriceUpdate_triggered_quiet e u now k id Hwf Hflag)
      as (Hn & _ & Hf). now split.
  - destruct (onPriceUpdate_wfStore e u now Hwf) as ((Hp' & Hl' & _) & _).
    destruct k; simpl in Hflag.
    + unfold getPriceAlert in Hflag.
      destruct (JsMap.get id (priceAlerts (store e))) as [alert |] eqn:Hget;
        [| discriminate].
      simpl in Hflag. inversion Hflag as [Harmed].
      apply get_In in Hget.
      destruct (onPriceUpdate_price_alert e u now id alert Hwf Hget)
        as (e' & fx & Hrun & _ & _ & _ & Hrest).
      cbv zeta in Hrest. destruct Hrest as (Hn & _ & Hin').
      subst n flag'. rewrite Hrun in *. simpl in *.
      unfold getPriceAlert. rewrite (In_get id _ _ Hp' Hin'). simpl.
      destruct (priceFires (store e) (previousPrice e) (price u) alert).
      * left. now split.
      * right. split; [exact Hn | now rewrite Harmed].
    + unfold getLtvAlert in Hflag.
      destruct (JsMap.get id (ltvAlerts (store e))) as [alert |] eqn:Hget;
        [| discriminate].
      simpl in Hflag. inversion Hflag as [Harmed].
      apply get_In in Hget.
      destruct (onPriceUpdate_ltv_alert e u now id alert Hwf Hget)
        as (e' & fx & Hrun & Hn & _ & Hin').
      subst n flag'. rewrite Hrun in *. simpl in *.
      unfold getLtvAlert. rewrite (In_get id _ _ Hl' Hin'). simpl.
      destruct (ltvFires (store e) (previousLtvs e) (price u) alert).
      * left. now split.
      * right. split; [exact Hn | now rewrite Harmed].
  - destruct Hwf as (Hp & Hl & Hpid & Hlid).
    subst n flag'. rewrite onPriceUpdate_parts. cbv zeta. cbn [fst snd store].
    rewrite notifications_app.
    destruct (checkPriceAlertsLoop_quiet (store e) (previousPrice e) (price u)
                now k id (priceAlerts (store e))) as [Hn1 _].
    { intros -> key a Hin Hid. exfalso. simpl in Hflag.
      unfold getPriceAlert in Hflag.
      assert (key = id) by (rewrite <- Hid; symmetry; now apply Hpid).
      subst key. now rewrite (In_get id a _ Hp Hin) in Hflag. }
    destruct (checkLtvAlertsLoop_quiet (store e) (previousLtvs e) (price u)
                now k id (ltvAlerts (store e))) as [Hn2 _].
    { intros -> key a Hin Hid. exfalso. simpl in Hflag.
      unfold getLtvAlert in Hflag.
      assert (key = id) by (rewrite <- Hid; symmetry; now apply Hlid).
      subst key. now rewrite (In_get id a _ Hl Hin) in Hflag. }
    rewrite Hn1, Hn2. split; [reflexivity |].
    destruct k; simpl in *.
    + unfold getPriceAlert in *. simpl. rewrite checkPriceAlertsLoop_map.
      rewrite (get_map_values
                 (fun a => fst (checkPriceAlert (store e) (previousPrice e)
                                  (price u) now a))).
      destruct (JsMap.get id (priceAlerts (store e))); [discriminate | reflexivity].
    + unfold getLtvAlert in *. simpl. rewrite checkLtvAlertsLoop_map.
      rewrite (get_map_values
                 (fun a => fst (checkLtvAlert (store e) (previousLtvs e)
                                  (price u) now a))).
      destruct (JsMap.get id (ltvAlerts (store e))); [discriminate | reflexivity].
Qed.

(** X9.  Within one update every notification comes with one
    [ALERT_TRIGGERED] event of the same kind and alert id.  An alert whose
    flag is false gets at most one notification, and its flag is true
    after the update exactly when it got one. *)
Theorem X9_flag_set_exactly_when_notified
    (e : AlertEngine) (u : PriceUpdate) (now : Z) (k : AlertKind) (id : string) :
  wfStore (store e) ->
  triggeredFlag (store e) k id = Some false ->
  let fx := snd (onPriceUpdate e u now) in
  let flag' := triggeredFlag (store (fst (onPriceUpdate e u now))) k id in
  (forall k0 id0, notifications k0 id0 fx = events k0 id0 fx) /\
  (notifications k id fx <= 1)%nat /\
  (flag' = Some true <-> notifications k id fx = 1%nat) /\
  (flag' = Some false <-> notifications k id fx = 0%nat).
Proof.
  intros Hwf Hflag fx flag'. split.
  - intros k0 id0. subst fx. rewrite onPriceUpdate_parts. cbv zeta. cbn [snd].
    rewrite notifications_app, events_app.
    now rewrite checkPriceAlertsLoop_paired, checkLtvAlertsLoop_paired.
  - pose proof (onPriceUpdate_flag_cases e u now k id Hwf) as H.
    cbv zeta in H. rewrite Hflag in H. fold fx flag' in H.
    destruct H as [[Hn Hf] | [Hn Hf]]; rewrite Hn, Hf.
    + split; [lia |]. split; split; auto; discriminate.
    + split; [lia |]. split; split; auto; discriminate.
Qed.

Lemma X9_flag_witness :
  triggeredFlag
    (store (fst (onPriceUpdate engineS2 (testUpdate 58000 1) 1))) PriceKind "a1"
  = Some true <->
  notifications PriceKind "a1" (snd (onPriceUpdate engineS2 (testUpdate 58000 1) 1))
  = 1%nat.
Proof.
  apply (proj1 (proj2 (proj2 (X9_flag_set_exactly_when_notified engineS2
                  (testUpdate 58000 1) 1 PriceKind "a1"
                  wfStore_storeS2 ltac:(reflexivity))))).
Defined.

Lemma deliver_wfStore (updates : list (PriceUpdate * Z)) :
  forall e, wfStore (store e) -> wfStore (store (fst (deliver e updates))).
Proof.
  induction updates as [| [u now] rest IH]; intros e Hwf; [exact Hwf |].
  cbn [deliver].
  destruct (onPriceUpdate_wfStore e u now Hwf) as (Hwf' & _).
  destruct (onPriceUpdate e u now) as [e1 fx]. simpl in Hwf'.
  specialize (IH e1 Hwf'). destruct (deliver e1 rest) as [e2 fxs].
  exact IH.
Qed.

(** Over a run, by the flag the run starts from. *)
Lemma deliver_total (updates : list (PriceUpdate * Z)) (k : AlertKind)
    (id : string) :
  forall e,
    wfStore (store e) ->
    let n := total (map (notifications k id) (snd (deliver e updates))) in
    match triggeredFlag (store e) k id with
    | Some false => (n <= 1)%nat
    | _ => n = 0%nat
    end.
Proof.
  induction updates as [| [u now] rest IH]; intros e Hwf.
  - simpl. destruct (triggeredFlag (store e) k id) as [[|] |]; lia.
  - pose proof (onPriceUpdate_flag_cases e u now k id Hwf) as Hstep.
    destruct (onPriceUpdate_wfStore e u now Hwf) as (Hwf' & _).
    cbv zeta in Hstep. cbn [deliver].
    destruct (onPriceUpdate e u now) as [e1 fx]. simpl in Hstep, Hwf'.
    specialize (IH e1 Hwf'). cbv zeta in IH.
    destruct (deliver e1 rest) as [e2 fxs]. simpl in *.
    destruct (triggeredFlag (store e) k id) as [[|] |].
    + destruct Hstep as [Hn Hf]. rewrite Hf in IH. lia.
    + destruct Hstep as [[Hn Hf] | [Hn Hf]]; rewrite Hf in IH; lia.
    + destruct Hstep as [Hn Hf]. rewrite Hf in IH. lia.
Qed.

(** X8.  Over any run of updates an alert, price or LTV, is notified at
    most once; an alert whose flag is already true, and an id the store
    does not hold, are never notified. *)
Theorem X8_at_most_one_notification
    (updates : list (PriceUpdate * Z)) (e : AlertEngine)
    (k : AlertKind) (id : string) :
  wfStore (store e) ->
  (total (map (notifications k id) (snd (deliver e updates))) <= 1)%nat /\
  (triggeredFlag (store e) k id <> Some false ->
   total (map (notifications k id) (snd (deliver e updates))) = 0%nat) /\
  wfStore (store (fst (deliver e updates))).
Proof.
  intro Hwf. pose proof (deliver_total updates k id e Hwf) as H.
  cbv zeta in H. split; [| split].
  - destruct (triggeredFlag (store e) k id) as [[|] |]; lia.
  - intro Hne. destruct (triggeredFlag (store e) k id) as [[|] |];
      [exact H | congruence | exact H].
  - now apply deliver_wfStore.
Qed.

Lemma X8_at_most_one_witness :
  (total (map (notifications PriceKind "a1")
            (snd (deliver engineS2
                    [ (testUpdate 70000 1, 1%Z); (testUpdate 58000 2, 2%Z);
                      (testUpdate 65000 3, 3%Z); (testUpdate 58000 4, 4%Z) ])))
   <= 1)%nat.
Proof.
  apply (proj1 (X8_at_most_one_notification
                  [ (testUpdate 70000 1, 1%Z); (testUpdate 58000 2, 2%Z);
                    (testUpdate 65000 3, 3%Z); (testUpdate 58000 4, 4%Z) ]
                  engineS2 PriceKind "a1" wfStore_storeS2)).
Defined.

(** *** The previous LTVs *)

Lemma refresh_other (p : Q) (tok : string) (ls : list SelfServiceLoan) :
  forall prevLtvs,
    ~ In tok (map Store.token ls) ->
    JsMap.get tok (refreshPreviousLtvs p ls prevLtvs) = JsMap.get tok prevLtvs.
Proof.
  induction ls as [| l rest IH]; intros prevLtvs Hnotin; simpl; [reflexivity |].
  simpl in Hnotin. rewrite IH by tauto.
  destruct (Qltb 0 (btc_collateral l * p)); [| reflexivity].
  apply get_set_other. intro H. apply Hnotin. now left.
Qed.

Lemma refresh_loan (p : Q) (loan : SelfServiceLoan) (ls : list SelfServiceLoan) :
  NoDup (map Store.token ls) ->
  In loan ls ->
  forall prevLtvs,
    JsMap.get (Store.token loan) (refreshPreviousLtvs p ls prevLtvs)
    = if Qltb 0 (btc_collateral loan * p)
      then Some (loan_amount_usd loan / (btc_collateral loan * p))
      else JsMap.get (Store.token loan) prevLtvs.
Proof.
  induction ls as [| l rest IH]; intros Hnd Hin prevLtvs; [destruct Hin |].
  simpl in Hnd. inversion Hnd as [| ? ? Hnotin Hnd']; subst. simpl.
  destruct Hin as [-> | Hin].
  - rewrite refresh_other by exact Hnotin.
    destruct (Qltb 0 (btc_collateral loan * p)); [apply get_set_same | reflexivity].
  - rewrite (IH Hnd' Hin).
    destruct (Qltb 0 (btc_collateral loan * p)); [reflexivity |].
    destruct (Qltb 0 (btc_collateral l * p)); [| reflexivity].
    apply get_set_other. intro Heq. apply Hnotin. rewrite <- Heq.
    now apply in_map.
Qed.

Lemma wfLoans_tokens (m : JsMap.t SelfServiceLoan) :
  (forall k l, In (k, l) m -> Store.token l = k) ->
  map Store.token (JsMap.values m) = JsMap.keys m.
Proof.
  unfold JsMap.values, JsMap.keys.
  induction m as [| [k l] rest IH]; intro H; simpl; [reflexivity |].
  rewrite IH by (intros k' l' Hin; apply H; now right).
  f_equal. apply H. now left.
Qed.

(** X10.  After an update the engine holds, for every loan of the store
    whose collateral is worth more than nothing at the update's price, the
    LTV of the loan at that price, alert or no alert; for a loan whose
    collateral is worth nothing or less, and for a token of no loan, it
    holds what it held before. *)
Theorem X10_previous_ltv_of_every_loan
    (e : AlertEngine) (u : PriceUpdate) (now : Z)
    (tok : string) (loan : SelfServiceLoan) :
  wfLoans (store e) ->
  In (tok, loan) (loans (store e)) ->
  let e' := fst (onPriceUpdate e u now) in
  let worth := btc_collateral loan * price u in
  (0 < worth ->
   JsMap.get tok (previousLtvs e') = Some (ltvAt loan (price u)) /\
   previousLtvOf e' tok = ltvAt loan (price u)) /\
  (worth <= 0 ->
   JsMap.get tok (previousLtvs e') = JsMap.get tok (previousLtvs e)) /\
  (forall other,
     JsMap.get other (loans (store e)) = None ->
     JsMap.get other (previousLtvs e') = JsMap.get other (previousLtvs e)).
Proof.
  intros [Hwf Htok] Hin e' worth. subst e'.
  rewrite onPriceUpdate_parts. cbv zeta. cbn [fst previousLtvs].
  assert (Hnd : NoDup (map Store.token (JsMap.values (loans (store e)))))
    by (now rewrite wfLoans_tokens).
  assert (Hloan : In loan (JsMap.values (loans (store e)))).
  { unfold JsMap.values. change loan with (snd (tok, loan)). now apply in_map. }
  assert (Ht : Store.token loan = tok) by (now apply Htok).
  pose proof (refresh_loan (price u) loan _ Hnd Hloan (previousLtvs e)) as Hr.
  rewrite Ht in Hr. fold worth in Hr.
  split; [| split].
  - intro Hpos. apply Qltb_lt in Hpos. rewrite Hpos in Hr.
    unfold previousLtvOf. cbn [previousLtvs]. rewrite Hr. now split.
  - intro Hle. apply Qltb_ge in Hle. now rewrite Hle in Hr.
  - intros other Hnone. apply refresh_other.
    rewrite wfLoans_tokens by exact Htok. intro Hk.
    unfold JsMap.keys in Hk. apply in_map_iff in Hk.
    destruct Hk as ([k l] & Hk & Hin'). simpl in Hk. subst k.
    now rewrite (In_get other l _ Hwf Hin') in Hnone.
Qed.

Lemma wfLoans_engineS4 : wfLoans (store engineS4).
Proof.
  unfold wfLoans, JsMap.wf. simpl. split.
  - repeat constructor. intros [].
  - intros k l [H | []]. now inversion H.
Defined.

Lemma X10_previous_ltv_witness :
  JsMap.get "tok"
    (previousLtvs (fst (onPriceUpdate engineS4 (testUpdate 100000 1) 1)))
  = Some (ltvAt loanS1 100000) /\
  previousLtvOf (fst (onPriceUpdate engineS4 (testUpdate 100000 1) 1)) "tok"
  = ltvAt loanS1 100000.
Proof.
  apply (proj1 (X10_previous_ltv_of_every_loan engineS4 (testUpdate 100000 1) 1
                  "tok" loanS1 wfLoans_engineS4 ltac:(left; reflexivity))).
  reflexivity.
Defined.

End AlertsMore.

(* ================================================================= *)
(** ** More on the loan store *)

Module StoreMore.
Import Num NumFacts Types Store Spec Terms AlertsFacts.
Local Open Scope Q_scope.

(** *** Tiers *)


(** X12.  Whatever the thresholds, [classifyTier] never gives a lower tier
    when the LTV rises or when a threshold falls, in the order GREEN, YELLOW,
    ORANGE, RED, LIQUIDATION. *)
Theorem X12_classifyTier_monotone (ltv1 ltv2 mc1 mc2 liq1 liq2 : Q) :
  ltv1 <= ltv2 -> mc2 <= mc1 -> liq2 <= liq1 ->
  (tierRank (classifyTier ltv1 mc1 liq1)
   <= tierRank (classifyTier ltv2 mc2 liq2))%nat.
Proof.
  intros Hltv Hmc Hliq. unfold classifyTier.
  destruct (Qleb liq1 ltv1) eqn:A1; destruct (Qleb liq2 ltv2) eqn:A2;
    qcases; try (exfalso; lra); simpl; try lia;
  destruct (Qleb mc1 ltv1) eqn:B1; destruct (Qleb mc2 ltv2) eqn:B2;
    qcases; try (exfalso; lra); simpl; try lia;
  destruct (Qleb (mc1 * (8 # 10)) ltv1) eqn:C1;
  destruct (Qleb (mc2 * (8 # 10)) ltv2) eqn:C2;
    qcases; try (exfalso; lra); simpl; try lia;
  destruct (Qleb (mc1 * (6 # 10)) ltv1) eqn:D1;
  destruct (Qleb (mc2 * (6 # 10)) ltv2) eqn:D2;
    qcases; try (exfalso; lra); simpl; lia.
Qed.

Lemma X12_classifyTier_witness :
  (tierRank (classifyTier (50 # 100) (75 # 100) (90 # 100))
   <= tierRank (classifyTier (80 # 100) (70 # 100) (85 # 100)))%nat.
Proof.
  apply (X12_classifyTier_monotone (50 # 100) (80 # 100) (75 # 100) (70 # 100)
           (90 # 100) (85 # 100)); discriminate.
Defined.

(** *** Quotients *)




Lemma snapshot_some (s : LoanStore) (tok : string) (btcPrice : option Q)
    (endTs : option Z) (now : Z) (loan : SelfServiceLoan) :
  JsMap.get tok (loans s) = Some loan ->
  0 < snapshotPrice s btcPrice ->
  exists snap,
    computeSnapshot s tok btcPrice endTs now = Some snap /\
    snapshot_token snap = tok /\
    btc_price snap = snapshotPrice s btcPrice /\
    collateral_usd snap = btc_collateral loan * snapshotPrice s btcPrice /\
    current_ltv snap
    = js_div (loan_amount_usd loan)
        (btc_collateral loan * snapshotPrice s btcPrice) /\
    margin_call_price snap
    = js_div (loan_amount_usd loan) (btc_collateral loan * margin_call_ltv loan) /\
    liquidation_price snap
    = js_div (loan_amount_usd loan) (btc_collateral loan * liquidation_ltv loan) /\
    risk_tier snap
    = classifyTierOf (current_ltv snap) (margin_call_ltv loan) (liquidation_ltv loan) /\
    stress_test snap
    = mkStressTest (stressAt loan (snapshotPrice s btcPrice * (95 # 100)))
        (stressAt loan (snapshotPrice s btcPrice * (90 # 100)))
        (stressAt loan (snapshotPrice s btcPrice * (80 # 100)))
        (stressAt loan (snapshotPrice s btcPrice * (70 # 100))) /\
    days_remaining snap
    = option_map (fun t => Z.max 0 (ceilDiv (t - now) msPerDay)) endTs.
Proof.
  intros Hloan Hp. unfold computeSnapshot. rewrite Hloan.
  fold (snapshotPrice s btcPrice).
  apply Qleb_gt in Hp. rewrite Hp.
  eexists. split; [reflexivity |]. simpl. repeat split.
Qed.

(** X13.  [computeSnapshot] returns [null] exactly when the store has no
    loan under the token or the price it works with (the one given, else
    the last price of the store, else 0) is not positive. *)
Theorem X13_snapshot_null_iff (s : LoanStore) (tok : string)
    (btcPrice : option Q) (endTs : option Z) (now : Z) :
  computeSnapshot s tok btcPrice endTs now = None <->
  JsMap.get tok (loans s) = None \/ snapshotPrice s btcPrice <= 0.
Proof.
  unfold computeSnapshot. fold (snapshotPrice s btcPrice).
  destruct (JsMap.get tok (loans s)) as [loan |]; [| tauto].
  destruct (Qleb (snapshotPrice s btcPrice) 0) eqn:E; qcases.
  - tauto.
  - split; [discriminate |]. intros [H | H]; [discriminate | exfalso; lra].
Qed.



(** *** Stress test, days and degenerate loans *)

Lemma snapshot_inv (s : LoanStore) (tok : string) (btcPrice : option Q)
    (endTs : option Z) (now : Z) (snap : LoanSnapshot) :
  computeSnapshot s tok btcPrice endTs now = Some snap ->
  exists loan,
    JsMap.get tok (loans s) = Some loan /\ 0 < snapshotPrice s btcPrice.
Proof.
  unfold computeSnapshot. fold (snapshotPrice s btcPrice).
  destruct (JsMap.get tok (loans s)) as [loan |]; [| discriminate].
  destruct (Qleb (snapshotPrice s btcPrice) 0) eqn:E; [discriminate |].
  intros _. exists loan. qcases. now split.
Qed.





Lemma ceilDiv_days (x : Z) :
  ((x <= 0 -> Z.max 0 (ceilDiv x msPerDay) = 0) /\
   (0 < x ->
    0 < Z.max 0 (ceilDiv x msPerDay) /\
    (Z.max 0 (ceilDiv x msPerDay) - 1) * msPerDay < x
    /\ x <= Z.max 0 (ceilDiv x msPerDay) * msPerDay))%Z.
Proof.
  unfold ceilDiv, msPerDay.
  change (24 * 60 * 60 * 1000)%Z with 86400000%Z.
  pose proof (Z.div_mod (- x) 86400000 ltac:(lia)) as Hdm.
  pose proof (Z.mod_pos_bound (- x) 86400000 ltac:(lia)) as Hb.
  split; intro Hx; lia.
Qed.

(** X16.  A snapshot has [days_remaining] exactly when the loan has an end
    date; it is 0 when the end is not after the clock reading, and
    otherwise it is the positive number of days [d] with
    [(d - 1) days < end - now <= d days]. *)
Theorem X16_days_remaining (s : LoanStore) (tok : string)
    (btcPrice : option Q) (endTs : option Z) (now : Z) (snap : LoanSnapshot) :
  computeSnapshot s tok btcPrice endTs now = Some snap ->
  match endTs with
  | None => days_remaining snap = None
  | Some t =>
      exists d,
        days_remaining snap = Some d /\
        ((t <= now -> d = 0) /\
         (now < t ->
          0 < d /\ (d - 1) * msPerDay < t - now /\ t - now <= d * msPerDay))%Z
  end.
Proof.
  intro Hsnap.
  destruct (snapshot_inv _ _ _ _ _ _ Hsnap) as (loan & Hloan & Hp).
  destruct (snapshot_some s tok btcPrice endTs now loan Hloan Hp)
    as (snap' & Hsnap' & _ & _ & _ & _ & _ & _ & _ & _ & Hd).
  rewrite Hsnap in Hsnap'. inversion Hsnap'; subst snap'. clear Hsnap'.
  rewrite Hd. destruct endTs as [t |]; simpl; [| reflexivity].
  eexists. split; [reflexivity |].
  destruct (ceilDiv_days (t - now)) as [H0 H1].
  split; intro H; [apply H0 | apply H1]; lia.
Qed.

Lemma X16_days_remaining_witness :
  exists snap d,
    computeSnapshot storeS1 "tok" (Some 100000) (Some 259200001%Z) 0 = Some snap /\
    days_remaining snap = Some d /\ d = 4%Z.
Proof.
  eexists.
  destruct (X16_days_remaining storeS1 "tok" (Some 100000) (Some 259200001%Z) 0 _
              ltac:(reflexivity)) as (d & Hd & _ & H).
  exists d. split; [reflexivity |]. split; [exact Hd |].
  destruct (H ltac:(reflexivity)) as (_ & Hlo & Hhi).
  unfold msPerDay in Hlo, Hhi. lia.
Defined.



(** *** Deleting *)

Lemma get_delete_same {V : Type} (k : string) (m : JsMap.t V) :
  JsMap.wf m -> JsMap.get k (JsMap.delete k m) = None.
Proof.
  unfold JsMap.wf, JsMap.keys.
  induction m as [| [k' v'] rest IH]; simpl; intro Hwf; [reflexivity |].
  inversion Hwf as [| ? ? Hnotin Hwf']; subst.
  destruct (String.eqb k k') eqn:E; simpl.
  - apply String.eqb_eq in E. subst k'.
    destruct (JsMap.get k rest) as [v |] eqn:G; [| reflexivity].
    exfalso. apply Hnotin. apply get_In in G.
    apply in_map_iff. now exists (k, v).
  - rewrite E. now apply IH.
Qed.

Lemma get_delete_other {V : Type} (k k0 : string) (m : JsMap.t V) :
  k0 <> k -> JsMap.get k0 (JsMap.delete k m) = JsMap.get k0 m.
Proof.
  intro Hne. induction m as [| [k' v'] rest IH]; simpl; [reflexivity |].
  destruct (String.eqb k k') eqn:E; simpl.
  - apply String.eqb_eq in E. subst k'.
    apply String.eqb_neq in Hne. now rewrite Hne.
  - now rewrite IH.
Qed.

Lemma num_get_In {V : Type} (k : Z) (v : V) (m : NumMap.t V) :
  NumMap.get k m = Some v -> In k (map fst m).
Proof.
  induction m as [| [k' v'] rest IH]; simpl; [discriminate |].
  destruct (Z.eqb k k') eqn:E.
  - apply Z.eqb_eq in E. now left.
  - intro H. right. now apply IH.
Qed.

Lemma num_get_delete_same {V : Type} (k : Z) (m : NumMap.t V) :
  NoDup (map fst m) -> NumMap.get k (NumMap.delete k m) = None.
Proof.
  induction m as [| [k' v'] rest IH]; simpl; intro Hwf; [reflexivity |].
  inversion Hwf as [| ? ? Hnotin Hwf']; subst.
  destruct (Z.eqb k k') eqn:E; simpl.
  - apply Z.eqb_eq in E. subst k'.
    destruct (NumMap.get k rest) as [v |] eqn:G; [| reflexivity].
    exfalso. apply Hnotin. now apply num_get_In in G.
  - rewrite E. now apply IH.
Qed.

Lemma num_get_delete_other {V : Type} (k k0 : Z) (m : NumMap.t V) :
  k0 <> k -> NumMap.get k0 (NumMap.delete k m) = NumMap.get k0 m.
Proof.
  intro Hne. induction m as [| [k' v'] rest IH]; simpl; [reflexivity |].
  destruct (Z.eqb k k') eqn:E; simpl.
  - apply Z.eqb_eq in E. subst k'.
    apply Z.eqb_neq in Hne. now rewrite Hne.
  - now rewrite IH.
Qed.

Lemma dropPriceAlertsOf_dropWhere (tok : string) (entries : JsMap.t PriceAlert.t) :
  forall m,
    dropPriceAlertsOf tok entries m = dropWhere (priceAlertOf tok) entries m.
Proof.
  induction entries as [| [id a] rest IH]; intro m; simpl;
    [reflexivity | apply IH].
Qed.

Lemma dropLtvAlertsOf_dropWhere (tok : string) (entries : JsMap.t LtvAlert.t) :
  forall m,
    dropLtvAlertsOf tok entries m = dropWhere (ltvAlertOf tok) entries m.
Proof.
  induction entries as [| [id a] rest IH]; intro m; simpl;
    [reflexivity | apply IH].
Qed.

Lemma delete_app_notin {V : Type} (k : string) (v : V) (pre rest : JsMap.t V) :
  ~ In k (map fst pre) -> JsMap.delete k (pre ++ (k, v) :: rest) = pre ++ rest.
Proof.
  induction pre as [| [k' v'] pre IH]; simpl; intro H.
  - now rewrite String.eqb_refl.
  - destruct (String.eqb k k') eqn:E.
    + apply String.eqb_eq in E. subst. exfalso. apply H. now left.
    + f_equal. apply IH. tauto.
Qed.

Lemma dropWhere_filter_gen {V : Type} (f : V -> bool) (entries : JsMap.t V) :
  forall pre,
    NoDup (map fst (pre ++ entries)) ->
    dropWhere f entries (pre ++ entries)
    = pre ++ filter (fun kv => negb (f (snd kv))) entries.
Proof.
  induction entries as [| [id a] rest IH]; intros pre Hnd; simpl;
    [reflexivity |].
  rewrite map_app in Hnd. simpl in Hnd.
  destruct (f a) eqn:E; simpl.
  - apply NoDup_remove in Hnd. destruct Hnd as [Hnd Hnotin].
    rewrite delete_app_notin.
    + apply IH. now rewrite map_app.
    + intro Hin. apply Hnotin. apply in_or_app. now left.
  - replace (pre ++ (id, a) :: rest) with ((pre ++ [(id, a)]) ++ rest)
      by (now rewrite <- app_assoc).
    rewrite IH.
    + now rewrite <- app_assoc.
    + rewrite <- app_assoc, map_app. exact Hnd.
Qed.

Lemma dropWhere_filter {V : Type} (f : V -> bool) (m : JsMap.t V) :
  JsMap.wf m ->
  dropWhere f m m = filter (fun kv => negb (f (snd kv))) m.
Proof. intro Hwf. exact (dropWhere_filter_gen f m [] Hwf). Qed.

Lemma values_filter {V : Type} (g : V -> bool) (m : JsMap.t V) :
  JsMap.values (filter (fun kv => g (snd kv)) m) = filter g (JsMap.values m).
Proof.
  unfold JsMap.values. induction m as [| [k v] rest IH]; simpl; [reflexivity |].
  destruct (g v); simpl; now rewrite IH.
Qed.

Lemma filter_without_same {A : Type} (p : A -> bool) (l : list A) :
  filter p (filter (fun a => negb (p a)) l) = [].
Proof.
  induction l as [| a rest IH]; simpl; [reflexivity |].
  destruct (p a) eqn:E; simpl; [exact IH | now rewrite E].
Qed.

Lemma filter_without_other {A : Type} (p q : A -> bool) (l : list A) :
  (forall a, p a = true -> q a = false) ->
  filter p (filter (fun a => negb (q a)) l) = filter p l.
Proof.
  intro H. induction l as [| a rest IH]; simpl; [reflexivity |].
  destruct (q a) eqn:E; simpl.
  - destruct (p a) eqn:P; [| exact IH]. apply H in P. congruence.
  - now rewrite IH.
Qed.

(** X18.  [deleteLoan] of a stored loan returns [true] and takes with the
    loan every price alert and every LTV alert that names its token and
    the entry of its chat; the other loans, the alerts of other tokens,
    their order, the other chats and the last price stay.  The chat entry
    goes whatever token it held, so [getLoanByChatId] finds nothing for
    that chat afterwards. *)
Theorem X18_deleteLoan_cascade (s : LoanStore) (chats : NumMap.t string)
    (tok : string) (loan : SelfServiceLoan) :
  wfStore s -> JsMap.wf (loans s) -> NoDup (map fst chats) ->
  getLoan s tok = Some loan ->
  exists s' chats',
    deleteLoan s chats tok = (true, s', chats') /\
    getLoan s' tok = None /\
    (forall t, t <> tok -> getLoan s' t = getLoan s t) /\
    getAllPriceAlerts s'
    = filter (fun a => negb (priceAlertOf tok a)) (getAllPriceAlerts s) /\
    getAllLtvAlerts s'
    = filter (fun a => negb (ltvAlertOf tok a)) (getAllLtvAlerts s) /\
    getPriceAlerts s' tok = [] /\
    getLtvAlerts s' tok = [] /\
    (forall t, t <> tok ->
       getPriceAlerts s' t = getPriceAlerts s t /\
       getLtvAlerts s' t = getLtvAlerts s t) /\
    getLastPrice s' = getLastPrice s /\
    NumMap.get (chat_id loan) chats' = None /\
    (forall c, c <> chat_id loan -> NumMap.get c chats' = NumMap.get c chats) /\
    getLoanByChatId s' chats' (chat_id loan) = None.
Proof.
  intros (Hwp & Hwl & _ & _) Hwloans Hchats Hloan.
  unfold getLoan in Hloan. unfold deleteLoan. rewrite Hloan.
  eexists. eexists. split; [reflexivity |].
  assert (HP : getAllPriceAlerts
                 (mkStore (JsMap.delete tok (loans s))
                    (dropPriceAlertsOf tok (priceAlerts s) (priceAlerts s))
                    (dropLtvAlertsOf tok (ltvAlerts s) (ltvAlerts s))
                    (lastPrice s))
               = filter (fun a => negb (priceAlertOf tok a)) (getAllPriceAlerts s)).
  { unfold getAllPriceAlerts. simpl.
    rewrite dropPriceAlertsOf_dropWhere, dropWhere_filter by exact Hwp.
    apply (values_filter (fun a => negb (priceAlertOf tok a))). }
  assert (HL : getAllLtvAlerts
                 (mkStore (JsMap.delete tok (loans s))
                    (dropPriceAlertsOf tok (priceAlerts s) (priceAlerts s))
                    (dropLtvAlertsOf tok (ltvAlerts s) (ltvAlerts s))
                    (lastPrice s))
               = filter (fun a => negb (ltvAlertOf tok a)) (getAllLtvAlerts s)).
  { unfold getAllLtvAlerts. simpl.
    rewrite dropLtvAlertsOf_dropWhere, dropWhere_filter by exact Hwl.
    apply (values_filter (fun a => negb (ltvAlertOf tok a))). }
  split; [unfold getLoan; simpl; now apply get_delete_same |].
  split; [intros t Ht; unfold getLoan; simpl; now apply get_delete_other |].
  split; [exact HP |]. split; [exact HL |].
  unfold getPriceAlerts, getLtvAlerts.
  change (JsMap.values (priceAlerts ?x)) with (getAllPriceAlerts x).
  change (JsMap.values (ltvAlerts ?x)) with (getAllLtvAlerts x).
  rewrite HP, HL.
  split; [apply (filter_without_same (priceAlertOf tok)) |].
  split; [apply (filter_without_same (ltvAlertOf tok)) |].
  split.
  { intros t Ht. split.
    - apply (filter_without_other
               (fun a => String.eqb (PriceAlert.token a) t) (priceAlertOf tok)).
      intros a Ha. apply String.eqb_eq in Ha. unfold priceAlertOf.
      apply String.eqb_neq. congruence.
    - apply (filter_without_other
               (fun a => String.eqb (LtvAlert.token a) t) (ltvAlertOf tok)).
      intros a Ha. apply String.eqb_eq in Ha. unfold ltvAlertOf.
      apply String.eqb_neq. congruence. }
  split; [reflexivity |].
  split; [now apply num_get_delete_same |].
  split; [intros c Hc; now apply num_get_delete_other |].
  unfold getLoanByChatId. now rewrite num_get_delete_same.
Qed.

Lemma wfStore_storeTwoLoans : wfStore storeTwoLoans.
Proof.
  unfold storeTwoLoans, storeS1.
  apply wfStore_createLtvAlert.
  do 2 apply wfStore_createPriceAlert.
  do 2 apply wfStore_createLoan.
  apply wfStore_create.
Qed.

Lemma X18_deleteLoan_witness :
  exists s' chats',
    deleteLoan storeTwoLoans chatsTwoLoans "tok" = (true, s', chats') /\
    getLoan s' "tok" = None /\
    getPriceAlerts s' "tok" = [] /\
    getLtvAlerts s' "tok" = [] /\
    getPriceAlerts s' "other" = getPriceAlerts storeTwoLoans "other" /\
    getLoanByChatId s' chats' 44444 = None.
Proof.
  assert (Hl : JsMap.wf (loans storeTwoLoans)).
  { repeat constructor; simpl; intuition discriminate. }
  assert (Hc : NoDup (map fst chatsTwoLoans)).
  { repeat constructor; simpl; intuition discriminate. }
  destruct (X18_deleteLoan_cascade storeTwoLoans chatsTwoLoans "tok" loanS1
              wfStore_storeTwoLoans Hl Hc ltac:(reflexivity))
    as (s' & chats' & Hd & Hg & _ & _ & _ & Hp & Hv & Ho & _ & _ & _ & Hb).
  exists s', chats'.
  repeat (split; [assumption |]).
  split; [apply (Ho "other"%string); discriminate | exact Hb].
Defined.

(** *** Alerts created and deleted *)

Lemma set_fresh {V : Type} (k : string) (v : V) (m : JsMap.t V) :
  JsMap.get k m = None -> JsMap.set k v m = m ++ [(k, v)].
Proof.
  induction m as [| [k' v'] rest IH]; simpl; [reflexivity |].
  destruct (String.eqb k k'); [discriminate |].
  intro H. now rewrite IH.
Qed.

Lemma delete_set_fresh {V : Type} (k : string) (v : V) (m : JsMap.t V) :
  JsMap.get k m = None -> JsMap.delete k (JsMap.set k v m) = m.
Proof.
  induction m as [| [k' v'] rest IH]; simpl.
  - now rewrite String.eqb_refl.
  - destruct (String.eqb k k') eqn:E; [discriminate |].
    intro H. simpl. rewrite E. now rewrite IH.
Qed.

Lemma with_priceAlerts_same (s : LoanStore) : with_priceAlerts s (priceAlerts s) = s.
Proof. now destruct s. Qed.

Lemma with_ltvAlerts_same (s : LoanStore) : with_ltvAlerts s (ltvAlerts s) = s.
Proof. now destruct s. Qed.

(** X19.  A price alert created under an id the store does not hold yet is
    found under that id, untriggered, comes last in the alerts of its
    token, leaves the alerts of other tokens as they were, and deleting it
    gives [true] and the store as it was before.  The same for an LTV
    alert. *)
Theorem X19_alert_create_get_delete (s : LoanStore) (id : string) (now : Z)
    (tok : string) (thr : Q) (dir : Direction) :
  (getPriceAlert s id = None ->
   let alert := PriceAlert.mk id tok thr dir false now None in
   let s1 := createPriceAlert s id now tok thr dir in
   getPriceAlert s1 id = Some alert /\
   getPriceAlerts s1 tok = getPriceAlerts s tok ++ [alert] /\
   (forall t, t <> tok -> getPriceAlerts s1 t = getPriceAlerts s t) /\
   getAllLtvAlerts s1 = getAllLtvAlerts s /\
   deletePriceAlert s1 id = (true, s)) /\
  (getLtvAlert s id = None ->
   let alert := LtvAlert.mk id tok thr dir false now None in
   let s1 := createLtvAlert s id now tok thr dir in
   getLtvAlert s1 id = Some alert /\
   getLtvAlerts s1 tok = getLtvAlerts s tok ++ [alert] /\
   (forall t, t <> tok -> getLtvAlerts s1 t = getLtvAlerts s t) /\
   getAllPriceAlerts s1 = getAllPriceAlerts s /\
   deleteLtvAlert s1 id = (true, s)).
Proof.
  split; intros Hnone alert s1.
  - unfold getPriceAlert in Hnone.
    assert (Hset : priceAlerts s1 = priceAlerts s ++ [(id, alert)]).
    { unfold s1, createPriceAlert. simpl. now apply set_fresh. }
    split; [unfold getPriceAlert, s1, createPriceAlert; simpl;
            apply get_set_same |].
    split.
    { unfold getPriceAlerts, JsMap.values. rewrite Hset, map_app, filter_app.
      simpl. now rewrite String.eqb_refl. }
    split.
    { intros t Ht. unfold getPriceAlerts, JsMap.values.
      rewrite Hset, map_app, filter_app. simpl.
      assert (E : String.eqb tok t = false) by (apply String.eqb_neq; congruence).
      rewrite E. apply app_nil_r. }
    split; [reflexivity |].
    unfold deletePriceAlert, s1, createPriceAlert. simpl.
    rewrite get_set_same, delete_set_fresh by exact Hnone.
    now destruct s.
  - unfold getLtvAlert in Hnone.
    assert (Hset : ltvAlerts s1 = ltvAlerts s ++ [(id, alert)]).
    { unfold s1, createLtvAlert. simpl. now apply set_fresh. }
    split; [unfold getLtvAlert, s1, createLtvAlert; simpl;
            apply get_set_same |].
    split.
    { unfold getLtvAlerts, JsMap.values. rewrite Hset, map_app, filter_app.
      simpl. now rewrite String.eqb_refl. }
    split.
    { intros t Ht. unfold getLtvAlerts, JsMap.values.
      rewrite Hset, map_app, filter_app. simpl.
      assert (E : String.eqb tok t = false) by (apply String.eqb_neq; congruence).
      rewrite E. apply app_nil_r. }
    split; [reflexivity |].
    unfold deleteLtvAlert, s1, createLtvAlert. simpl.
    rewrite get_set_same, delete_set_fresh by exact Hnone.
    now destruct s.
Qed.

Lemma X19_alert_create_witness :
  deletePriceAlert (createPriceAlert storeS2 "b7" 5 "tok" 70000 ABOVE) "b7"
  = (true, storeS2) /\
  deleteLtvAlert (createLtvAlert storeS2 "b7" 5 "tok" (80 # 100) ABOVE) "b7"
  = (true, storeS2).
Proof.
  split.
  - exact (proj2 (proj2 (proj2 (proj2
      (proj1 (X19_alert_create_get_delete storeS2 "b7" 5 "tok" 70000 ABOVE)
         ltac:(reflexivity)))))).
  - exact (proj2 (proj2 (proj2 (proj2
      (proj2 (X19_alert_create_get_delete storeS2 "b7" 5 "tok" (80 # 100) ABOVE)
         ltac:(reflexivity)))))).
Defined.

End StoreMore.

(* ================================================================= *)
(** ** The dashboard server *)

Module ServerMore.
Import Num NumFacts Types Store Server Spec Terms AlertsFacts StoreMore.

(** X20.  [apiDeleteAlert] answers 200 exactly when the token names a
    loan and the id names a price alert or an LTV alert, and 404 in every
    other case; the token of the alert is never compared with the token of
    the request, so the alert of any loan goes.  After a 200 neither kind
    holds the id; after a 404 the store is as before; the loans are never
    touched. *)
Theorem X20_apiDeleteAlert (s : LoanStore) (tok alertId : string) :
  wfStore s ->
  let code := fst (apiDeleteAlert s tok alertId) in
  let s' := snd (apiDeleteAlert s tok alertId) in
  (code = 200%Z \/ code = 404%Z) /\
  (code = 200%Z <->
   getLoan s tok <> None /\
   (getPriceAlert s alertId <> None \/ getLtvAlert s alertId <> None)) /\
  (code = 200%Z ->
   getPriceAlert s' alertId = None /\ getLtvAlert s' alertId = None) /\
  (code = 404%Z -> s' = s) /\
  (forall id, id <> alertId ->
     getPriceAlert s' id = getPriceAlert s id /\
     getLtvAlert s' id = getLtvAlert s id) /\
  loans s' = loans s.
Proof.
  intros (Hwp & Hwl & _ & _). unfold apiDeleteAlert.
  destruct (getLoan s tok) as [loan |] eqn:Hloan; simpl.
  2:{ split; [now right |]. split; [split; [discriminate | tauto] |].
      split; [discriminate |]. split; [reflexivity |].
      split; [intros; now split | reflexivity]. }
  unfold deletePriceAlert, deleteLtvAlert, getPriceAlert, getLtvAlert.
  destruct (JsMap.get alertId (priceAlerts s)) as [pa |] eqn:Hp; simpl;
  destruct (JsMap.get alertId (ltvAlerts s)) as [la |] eqn:Hl; simpl;
  rewrite ?Hp, ?Hl; simpl.
  - split; [now left |].
    split; [split; [intros _; split; [discriminate | left; discriminate] | reflexivity] |].
    split; [intros _; split; now apply get_delete_same |].
    split; [discriminate |].
    split; [| reflexivity].
    intros id Hid. split; now apply get_delete_other.
  - split; [now left |].
    split; [split; [intros _; split; [discriminate | left; discriminate] | reflexivity] |].
    split; [intros _; split; [now apply get_delete_same | first [exact Hl | reflexivity]] |].
    split; [discriminate |].
    split; [| reflexivity].
    intros id Hid. split; [now apply get_delete_other | reflexivity].
  - split; [now left |].
    split; [split; [intros _; split; [discriminate | right; discriminate] | reflexivity] |].
    split; [intros _; split; [first [exact Hp | reflexivity] | now apply get_delete_same] |].
    split; [discriminate |].
    split; [| reflexivity].
    intros id Hid. split; [reflexivity | now apply get_delete_other].
  - split; [now right |].
    split; [split; [discriminate | intros [_ [H | H]]; congruence] |].
    split; [discriminate |].
    split; [reflexivity |].
    split; [intros; now split | reflexivity].
Qed.

Lemma X20_apiDeleteAlert_witness :
  fst (apiDeleteAlert storeTwoLoans "other" "p1") = 200%Z /\
  getPriceAlert (snd (apiDeleteAlert storeTwoLoans "other" "p1")) "p1" = None /\
  option_map PriceAlert.token (getPriceAlert storeTwoLoans "p1") = Some "tok"%string.
Proof.
  pose proof (X20_apiDeleteAlert storeTwoLoans "other" "p1" wfStore_storeTwoLoans)
    as (_ & Hiff & Hgone & _).
  assert (Hcode : fst (apiDeleteAlert storeTwoLoans "other" "p1") = 200%Z).
  { apply Hiff. split; [discriminate | left; discriminate]. }
  split; [exact Hcode |].
  split; [exact (proj1 (Hgone Hcode)) | reflexivity].
Defined.
End ServerMore.

(* ================================================================= *)
(** ** The event bus *)

Module EventsMore.
Import Types Events Oracle Terms.

Lemma emitSystemEvent_history (b : EventBus) (e : SystemEvent) :
  history (emitSystemEvent b e)
  = skipn (length (history b ++ [e]) - maxHistory) (history b ++ [e]).
Proof.
  unfold emitSystemEvent.
  destruct (maxHistory <? length (history b ++ [e]))%nat eqn:E; simpl;
    [reflexivity |].
  apply Nat.ltb_ge in E.
  replace (length (history b ++ [e]) - maxHistory)%nat with 0%nat by lia.
  reflexivity.
Qed.

Lemma emitAll_history (es : list SystemEvent) :
  forall b,
    (length (history b) <= maxHistory)%nat ->
    history (emitAll b es)
    = skipn (length (history b ++ es) - maxHistory) (history b ++ es).
Proof.
  induction es as [| e rest IH]; intros b Hb; simpl.
  - rewrite app_nil_r.
    replace (length (history b) - maxHistory)%nat with 0%nat by lia.
    reflexivity.
  - pose proof (emitSystemEvent_history b e) as He.
    assert (Hlen : (length (history (emitSystemEvent b e)) <= maxHistory)%nat).
    { rewrite He, length_skipn. lia. }
    rewrite (IH _ Hlen), He.
    set (L := history b ++ [e]). set (k := (length L - maxHistory)%nat).
    assert (HL : length L = S (length (history b))).
    { unfold L. rewrite length_app. simpl. lia. }
    assert (Hk : (k <= length L)%nat) by (unfold k; lia).
    assert (Happ : skipn k L ++ rest = skipn k (L ++ rest)).
    { rewrite skipn_app.
      replace (k - length L)%nat with 0%nat by lia. reflexivity. }
    rewrite Happ, skipn_skipn.
    replace (history b ++ e :: rest) with (L ++ rest)
      by (unfold L; now rewrite <- app_assoc).
    f_equal. rewrite length_skipn. unfold k. rewrite !length_app, HL.
    unfold maxHistory in *. lia.
Qed.

(** X21.  After any run of [emitSystemEvent] on a new bus the history is
    the last 1000 events of the run, oldest first; it never holds more. *)
Theorem X21_history_keeps_last_thousand (es : list SystemEvent) :
  history (emitAll Events.create es) = skipn (length es - maxHistory) es /\
  length (history (emitAll Events.create es)) = Nat.min (length es) maxHistory.
Proof.
  assert (H : history (emitAll Events.create es)
              = skipn (length es - maxHistory) es).
  { rewrite emitAll_history by (simpl; unfold maxHistory; lia). reflexivity. }
  split; [exact H |]. rewrite H, length_skipn. lia.
Qed.

Lemma type_eqb_eq (t1 t2 : EventType) : type_eqb t1 t2 = true <-> t1 = t2.
Proof. destruct t1, t2; simpl; split; congruence. Qed.

Lemma ofType_typed (b : EventBus) (t : EventType) :
  Forall (fun e => ev_type e = t) (ofType b (Some t)).
Proof.
  apply Forall_forall. intros e He. simpl in He.
  apply filter_In in He. now apply type_eqb_eq.
Qed.

Lemma getHistory_slice (b : EventBus) (type : option EventType) (limit : Z) :
  getHistory b type limit = slice (- limit) (ofType b type).
Proof. reflexivity. Qed.

(** X22.  [getHistory(type, limit)] with a positive [limit] returns the
    newest [limit] events of that type, or all of them when there are
    fewer, in the order of the history; with [limit] 0 it returns every
    event of the type, not none; with a negative [limit] it leaves out the
    oldest [-limit]. *)
Theorem X22_getHistory_limit (b : EventBus) (type : option EventType) (limit : Z) :
  (forall t, type = Some t ->
     Forall (fun e => ev_type e = t) (getHistory b type limit)) /\
  ((0 < limit)%Z ->
   exists older,
     ofType b type = older ++ getHistory b type limit /\
     length (getHistory b type limit)
     = Nat.min (Z.to_nat limit) (length (ofType b type))) /\
  (limit = 0%Z -> getHistory b type limit = ofType b type) /\
  ((limit < 0)%Z ->
   getHistory b type limit = skipn (Z.to_nat (- limit)) (ofType b type)).
Proof.
  rewrite getHistory_slice. unfold slice.
  set (xs := ofType b type).
  split; [| split; [| split]].
  - intros t ->.
    pose proof (ofType_typed b t) as Hall. fold xs in Hall.
    match goal with
    | |- Forall _ (skipn ?k xs) =>
        rewrite <- (firstn_skipn k xs) in Hall;
        apply Forall_app in Hall; exact (proj2 Hall)
    end.
  - intro Hpos.
    assert (E : (- limit <? 0)%Z = true) by (apply Z.ltb_lt; lia).
    rewrite E.
    exists (firstn (Z.to_nat (Z.max (Z.of_nat (length xs) + - limit) 0)) xs).
    split; [symmetry; apply firstn_skipn |].
    rewrite length_skipn. lia.
  - intros ->. simpl.
    replace (Z.to_nat (Z.min 0 (Z.of_nat (length xs)))) with 0%nat by lia.
    reflexivity.
  - intro Hneg.
    assert (E : (- limit <? 0)%Z = false) by (apply Z.ltb_ge; lia).
    rewrite E.
    destruct (Z_le_gt_dec (- limit) (Z.of_nat (length xs))) as [Hle | Hgt].
    + now rewrite Z.min_l by exact Hle.
    + rewrite Z.min_r by lia. rewrite Nat2Z.id.
      rewrite skipn_all. symmetry. apply skipn_all2. lia.
Qed.

Lemma X22_getHistory_witness :
  exists older,
    ofType busAfterTick (Some PRICE_UPDATE)
    = older ++ getHistory busAfterTick (Some PRICE_UPDATE) defaultLimit /\
    length (getHistory busAfterTick (Some PRICE_UPDATE) defaultLimit) = 1%nat.
Proof.
  destruct (proj1 (proj2 (X22_getHistory_limit busAfterTick (Some PRICE_UPDATE)
                            defaultLimit)) ltac:(reflexivity))
    as (older & Hsplit & Hlen).
  exists older. split; [exact Hsplit |]. rewrite Hlen. reflexivity.
Defined.
End EventsMore.

(* ================================================================= *)
(** ** The oracle service *)

Module OracleMore.
Import Num NumFacts Types Aggregator Events Oracle Spec Terms.
Import AggregatorFacts AlertsFacts AggregatorMore.

Lemma collectActive_freshSet (a : PriceAggregator) (now : Z) :
  collectActive now (sourcePrices a) = [] <-> freshSet a now = [].
Proof.
  pose proof (freshSet_length a now) as H.
  split; intro E; rewrite E in H; simpl in H.
  - symmetry in H. now apply length_zero_iff_nil in H.
  - now apply length_zero_iff_nil in H.
Qed.




Lemma fresh_tick_named (a : PriceAggregator) (src : string) (p : Q) (ts now : Z) :
  (now - ts < 30000)%Z -> In src (freshNames (ingestTick a src p ts) now).
Proof.
  intro Hf. rewrite freshNames_filter.
  destruct (ingestTick_stored a src p ts) as (Hget & _).
  apply get_In in Hget.
  apply in_map_iff. exists (src, mkTick p ts). split; [reflexivity |].
  apply filter_In. split; [exact Hget |].
  unfold freshb. simpl. now apply Z.ltb_lt.
Qed.

(** X24.  A tick of the service made while the tick of some source is
    younger than 30 000 ms publishes an update: it names that source,
    carries the clock reading as its timestamp, and becomes the last
    update of the service. *)
Theorem X24_fresh_source_is_published (o : PriceOracleService) (src : string)
    (p : Q) (ts now nowTwap : Z) :
  (now - ts < 30000)%Z ->
  exists u o' evs,
    tick (onSourceTick o src p ts) now nowTwap = (o', Some u, evs) /\
    In src (sources u) /\
    timestamp u = now /\
    getLastUpdate o' = Some u /\
    evs <> [].
Proof.
  intro Hf.
  pose proof (fresh_tick_named (aggregator o) src p ts now Hf) as Hin.
  assert (Hne : collectActive now
                  (sourcePrices (ingestTick (aggregator o) src p ts)) <> []).
  { intro E. apply collectActive_freshSet in E.
    unfold freshNames in Hin. rewrite E in Hin. destruct Hin. }
  destruct (computeUpdate_some _ now nowTwap Hne)
    as (u & a' & Hc & _ & Hts & Hsrc & _).
  unfold tick, onSourceTick. simpl. rewrite Hc.
  eexists. eexists. eexists. split; [reflexivity |].
  split; [now rewrite Hsrc |]. split; [exact Hts |].
  split; [reflexivity | discriminate].
Qed.

Lemma X24_fresh_source_witness :
  exists u o' evs,
    tick (onSourceTick serviceTwoOfThree "bitstamp" 60200 1500) 2000 2000
    = (o', Some u, evs) /\
    In "bitstamp"%string (sources u) /\ timestamp u = 2000%Z.
Proof.
  destruct (X24_fresh_source_is_published serviceTwoOfThree "bitstamp" 60200
              1500 2000 2000 ltac:(reflexivity))
    as (u & o' & evs & Ht & Hin & Hts & _).
  exists u, o', evs. now repeat split.
Defined.

(** X25.  The first update of a new service that has heard from one
    source only: its price and its TWAP are the price of that source, its
    confidence is LOW, it is never flagged by the breaker whatever the
    price is, and a SOURCE_DEGRADED follows the PRICE_UPDATE exactly when
    the service asks for more than one source. *)
Theorem X25_first_update (cfg : PriceOracleConfig) (src : string) (p : Q)
    (ts now nowTwap : Z) :
  (now - ts < 30000)%Z ->
  exists u o' evs,
    tick (onSourceTick (Oracle.create cfg) src p ts) now nowTwap
    = (o', Some u, evs) /\
    price u = p /\ (twap_5m u == p)%Q /\ sources u = [src] /\
    confidence u = LOW /\ circuit_breaker u = false /\
    map ev_type evs
    = PRICE_UPDATE :: (if (1 <? min_sources cfg)%Z then [SOURCE_DEGRADED] else []).
Proof.
  intro Hf. apply Z.ltb_lt in Hf.
  unfold tick, onSourceTick, Oracle.create, Aggregator.create, ingestTick,
    computeUpdate. simpl.
  unfold staleThreshold. rewrite Hf. simpl.
  unfold acceptMedian. simpl.
  eexists. eexists. eexists. split; [reflexivity |]. simpl.
  split; [reflexivity |].
  split.
  { unfold computeTwap, addSample, windowOf. simpl.
    change (medianOfSorted [p]) with p.
    destruct (nowTwap - twapWindowMs <=? now)%Z; simpl; [reflexivity |].
    destruct (Qeqb p 0) eqn:E; qcases; [now symmetry | reflexivity]. }
  split; [reflexivity |]. split; [reflexivity |]. split; [reflexivity |].
  now destruct (1 <? min_sources cfg)%Z.
Qed.

Lemma X25_first_update_witness :
  exists u o' evs,
    tick (onSourceTick (Oracle.create oracleConfig) "kraken" 60000 1000) 2000 2000
    = (o', Some u, evs) /\
    price u = 60000%Q /\ confidence u = LOW /\ map ev_type evs = [PRICE_UPDATE].
Proof.
  destruct (X25_first_update oracleConfig "kraken" 60000 1000 2000 2000
              ltac:(reflexivity))
    as (u & o' & evs & Ht & Hp & _ & _ & Hc & _ & He).
  exists u, o', evs. now repeat split.
Defined.

End OracleMore.
